(** * volos swagger: the authorization middleware

    A shallow embedding of [swagger/lib/auth-middleware.js]: the module-level
    variables become one [state] record, every function that reads or writes
    them becomes a computation in a state-and-exception monad, and the
    underscore helpers the module relies on are written out for the JavaScript
    values they are applied to.  Calls to [debug] only trace and are left out,
    as are [helpers.init(config)] and [authorizationsMap], which nothing in the
    module reads. *)

From Stdlib Require Import String Ascii List ZArith Bool Arith Lia.
From Stdlib Require Import DecimalString.
Import ListNotations.
Local Open Scope list_scope.
Local Open Scope string_scope.

Set Implicit Arguments.

(** ** JavaScript values *)

(** Values as they come out of a parsed YAML or JSON document (numbers are
    the integers), plus opaque callables with their arity.  An object is the
    list of its own enumerable properties in enumeration order (insertion
    order: no key of the documents handled here is an integer index). *)
#[warnings="-register-all"]
Inductive jsval : Type :=
| JUndefined
| JNull
| JBool (b : bool)
| JNum (n : Z)
| JStr (s : string)
| JFunction (label : string) (arity : nat)
| JArr (items : list jsval)
| JObj (props : list (string * jsval)).

Definition obj := list (string * jsval).

(** [ToBoolean]: what [if (v)], [!v] and [a || b] test. *)
Definition truthy (v : jsval) : bool :=
  match v with
  | JUndefined | JNull => false
  | JBool b => b
  | JNum n => negb (Z.eqb n 0)
  | JStr s => negb (String.eqb s "")
  | JFunction _ _ | JArr _ | JObj _ => true
  end.

(** [v === s] for a string [s]. *)
Definition strict_eq_str (v : jsval) (s : string) : bool :=
  match v with
  | JStr t => String.eqb t s
  | _ => false
  end.

(** ** Objects as ordered property lists *)

Section Properties.
Context {V : Type}.

(** [o[k]] on own properties; [None] is [undefined]. *)
Fixpoint obj_get (k : string) (o : list (string * V)) : option V :=
  match o with
  | [] => None
  | (k', v) :: o' => if String.eqb k k' then Some v else obj_get k o'
  end.

(** [o[k] = v]: an existing property keeps its place, a new one goes last. *)
Fixpoint obj_set (k : string) (v : V) (o : list (string * V)) : list (string * V) :=
  match o with
  | [] => [(k, v)]
  | (k', v') :: o' =>
      if String.eqb k k' then (k, v) :: o' else (k', v') :: obj_set k v o'
  end.

(** [Object.keys(o)] and [_.values(o)]. *)
Definition obj_keys (o : list (string * V)) : list string := map fst o.
Definition obj_values (o : list (string * V)) : list V := map snd o.

(** No property is listed twice: what every JavaScript object satisfies. *)
Definition obj_wf (o : list (string * V)) : Prop := NoDup (obj_keys o).
End Properties.

(** Property read [v.k] / [v[k]] on an arbitrary value: reading from
    [undefined] or [null] throws, other primitives have no own property. *)
Definition prop_of (v : jsval) (k : string) : option jsval :=
  match v with
  | JUndefined | JNull => None
  | JObj o => Some (match obj_get k o with Some x => x | None => JUndefined end)
  | _ => Some JUndefined
  end.


(** Decimal rendering of an array index, as [String(i)]. *)
Definition index_name (i : nat) : string :=
  NilEmpty.string_of_uint (Nat.to_uint i).

(** underscore's [isArrayLike]: the collection's [length] is a number between
    0 and [MAX_ARRAY_INDEX] (2^53 - 1). *)
Definition MAX_ARRAY_INDEX : Z := 9007199254740991.

Definition array_like (n : Z) : bool :=
  (0 <=? n)%Z && (n <=? MAX_ARRAY_INDEX)%Z.

Section Collections.
Context {V : Type}.
(** Which values are numbers, and the value that stands for [undefined]. *)
Variable number_of : V -> option Z.
Variable undefined : V.

(** The length underscore walks an object by, when its own [length] makes
    it array-like. *)
Definition array_length (o : list (string * V)) : option nat :=
  match obj_get "length" o with
  | Some v =>
      match number_of v with
      | Some n => if array_like n then Some (Z.to_nat n) else None
      | None => None
      end
  | None => None
  end.

(** [o[i]] *)
Definition at_index (o : list (string * V)) (i : nat) : V :=
  match obj_get (index_name i) o with
  | Some v => v
  | None => undefined
  end.

(** The [(key, value)] pairs underscore's [_.each], [_.filter] and
    [_.contains] walk an object by: [o[0] .. o[length - 1]] under their
    indices when the object is array-like, its own properties otherwise. *)
Definition collection_entries (o : list (string * V)) : list (string * V) :=
  match array_length o with
  | Some n => map (fun i => (index_name i, at_index o i)) (seq 0 n)
  | None => o
  end.

Definition collection_values (o : list (string * V)) : list V :=
  map snd (collection_entries o).
End Collections.

Definition js_number (v : jsval) : option Z :=
  match v with
  | JNum n => Some n
  | _ => None
  end.

Fixpoint indexed_from {V : Type} (i : nat) (l : list V) : list (string * V) :=
  match l with
  | [] => []
  | x :: l' => (index_name i, x) :: indexed_from (S i) l'
  end.

Fixpoint chars_of (s : string) : list jsval :=
  match s with
  | EmptyString => []
  | String c s' => JStr (String c EmptyString) :: chars_of s'
  end.

(** The [(key, value)] pairs [_.each(v, f)] hands to [f(value, key)]: an
    object as [collection_entries] walks it, the indexed items of an array or
    of a string, [undefined] under each index below the arity of a function
    (all array-like), nothing for any other value. *)
Definition each_entries (v : jsval) : list (string * jsval) :=
  match v with
  | JObj o => collection_entries js_number JUndefined o
  | JArr l => indexed_from 0 l
  | JStr s => indexed_from 0 (chars_of s)
  | JFunction _ n => map (fun i => (index_name i, JUndefined)) (seq 0 n)
  | _ => []
  end.

(** [_.contains(collection, s)] once the collection is reduced to the values
    it is walked by: underscore compares VALUES, never the keys of an
    object. *)
Definition contains_str (vals : list jsval) (s : string) : bool :=
  existsb (fun v => strict_eq_str v s) vals.

(** [s.substring(1)]. *)
Definition substring1 (s : string) : string :=
  match s with
  | EmptyString => EmptyString
  | String _ s' => s'
  end.

(** [String(array)], that is [array.join(',')], for an array of strings. *)
Definition join_comma (l : list string) : string := String.concat "," l.

(** ** Constants of the module *)

Definition SERVICES : list string := ["x-a127-services"; "x-volos-resources"].
Definition VOLOS_AUTH : string := "x-volos-authorizations".
Definition A127_AUTH : string := "x-a127-authorizations".
Definition OAUTH_PROP : string := "x-volos-oauth-service".

(** ** The documents and objects the module works on *)

(** A property of [swagger.paths]: either a value of the specification's own,
    or the path item of the bundled template document itself.  [importOAuth]
    stores the template's object, not a copy, so what it writes on that object
    afterwards is seen through every path that holds it. *)
Inductive pathItem : Type :=
| OwnItem (v : jsval)
| TemplateItem (keyPath : string).

(** [require('../spec/oauth_operations.yaml')]: the bundled document is not
    part of the sources at hand, so it is a component of the state, with path
    items and definitions that are objects, as a Swagger document has them
    (so neither container has a numeric [length], and underscore walks all
    their properties). *)
Record templateDoc : Type := {
  tpl_paths : list (string * obj);
  tpl_definitions : list (string * obj)
}.

(** [options.tokenPaths]: the code reads [paths.length] and iterates
    [_.each(paths, function(path, name) ...)], which is defined for an array of
    target paths and for an object from endpoint name to target path. *)
Inductive tokenPathsValue : Type :=
| TPArray (items : list string)
| TPObject (props : list (string * string)).

Record serviceOptions : Type := {
  passwordCheck : jsval;
  tokenPaths : option tokenPathsValue;
  otherOptions : obj
}.

Record serviceDefinition : Type := {
  provider : string;
  options : serviceOptions
}.

(** What one check step of a chain does with the request's credential. *)
Inductive stepOutcome : Type :=
| StepPass (result : jsval)
| StepFail (err : jsval)
| StepRespond.

(** A volos resource, as far as this module uses one: [validGrantTypes]
    (present on oauth resources only), [verifyToken(credential, scopes, cb)]
    given by the [(err, result)] it passes to [cb], and the behaviour of the
    step [connectMiddleware().authenticate(scope)]. *)
Record resource : Type := {
  res_provider : string;
  res_options : serviceOptions;
  validGrantTypes : jsval;
  verifyToken : jsval -> jsval -> jsval * jsval;
  authenticate : jsval -> jsval -> stepOutcome
}.

Definition registry := list (string * resource).

(** The steps pushed on [middlewares]; [helpers.chain(middlewares)] is the
    list itself. *)
Inductive middlewareStep : Type :=
| AuthenticateStep (name : string) (oauth : resource) (scope : jsval)
| AddResourcesStep (resources : option registry).

Definition chain := list middlewareStep.

(** [operation.volos], the memoization slot. *)
Record volosSlot : Type := { authChain : option chain }.

Record operation : Type := {
  operationId : jsval;
  op_a127_authorizations : jsval;      (* operation['x-a127-authorizations'] *)
  op_volos_authorizations : jsval;     (* operation['x-volos-authorizations'] *)
  volos : option volosSlot
}.

(** Operations are nodes of the specification shared by all requests: a
    request holds a reference, the objects live in the state. *)
Definition opRef := nat.

Record swaggerObject : Type := {
  x_a127_services : option (list (string * serviceDefinition));
  x_volos_resources : option (list (string * serviceDefinition));
  paths : option (list (string * pathItem));
  definitions : option obj
}.

(** [req.swagger]. *)
Record requestSwagger : Type := {
  rs_operation : option opRef;
  rs_path : jsval;
  rs_swaggerObject : option swaggerObject
}.

Record request : Type := {
  req_swagger : option requestSwagger;
  req_headers : obj;
  req_token : jsval;
  req_volos : option (option registry)   (* req.volos = { resources: ... } *)
}.

(** ** Errors and calls out of the module *)

(** What the engine raises a TypeError for.  Its message is the engine's own
    wording around these parts, and differs from one engine to the next. *)
Inductive typeError : Type :=
| ReadPropertyOf (property : string) (base : jsval)   (* [base.property], base undefined or null *)
| NotAFunction (callee : string).                     (* [callee(...)], callee no function *)

Inductive js_error : Type :=
| Error (message : string)               (* throw new Error(message) *)
| TypeError (what : typeError)           (* raised by the engine *)
| HostError (message : string).          (* thrown by a collaborator *)


(** The engine's error for [undefined.p] and [null.p]. *)
Definition cannot_read_of (p : string) (base : jsval) : js_error :=
  TypeError (ReadPropertyOf p base).

Definition cannot_read (p : string) : js_error := cannot_read_of p JUndefined.

(** The members of [Object.prototype], which [o[name]] finds on every plain
    object that has no own property of that name. *)
Definition object_prototype_members : list string :=
  ["constructor"; "__defineGetter__"; "__defineSetter__"; "hasOwnProperty";
   "__lookupGetter__"; "__lookupSetter__"; "isPrototypeOf";
   "propertyIsEnumerable"; "toString"; "valueOf"; "__proto__";
   "toLocaleString"].

Definition inherited (name : string) : bool :=
  existsb (String.eqb name) object_prototype_members.

(** Calls that leave the module, in the order they are made. *)
Inductive call : Type :=
| CallRequire (provider : string)
| CallGetHelperFunction (label : string) (reference : jsval)
| CallCreate (provider : string)
| CallConnectMiddleware (name : string)
| CallAuthenticate (name : string) (scope : jsval)
| CallChain (steps : nat)
| CallRunChain (steps : nat).

(** ** Module state and the monad of its functions *)

Record state : Type := {
  swagger : option swaggerObject;       (* var swagger *)
  resourcesMap : option registry;       (* var resourcesMap *)
  oauthSwagger : templateDoc;           (* var oauthSwagger *)
  operations : opRef -> operation;      (* the operation objects *)
  calls : list call
}.

Inductive completion (A : Type) : Type :=
| Normal (a : A)
| Throw (e : js_error).
Arguments Normal {A} a.
Arguments Throw {A} e.

Definition M (A : Type) : Type := state -> completion A * state.

Definition ret {A} (a : A) : M A := fun st => (Normal a, st).

Definition throw {A} (e : js_error) : M A := fun st => (Throw e, st).

(** A thrown error skips the continuation; what was written before stays. *)
Definition bind {A B} (m : M A) (k : A -> M B) : M B :=
  fun st =>
    match m st with
    | (Normal a, st') => k a st'
    | (Throw e, st') => (Throw e, st')
    end.

Definition gets {A} (f : state -> A) : M A := fun st => (Normal (f st), st).

Definition modify (f : state -> state) : M unit := fun st => (Normal tt, f st).

Declare Scope js_scope.
Delimit Scope js_scope with js.
Notation "x <- c ;; k" := (bind c (fun x => k))
  (at level 61, c at next level, right associativity) : js_scope.
Notation "c ;; k" := (bind c (fun _ => k))
  (at level 61, right associativity) : js_scope.
Local Open Scope js_scope.

Fixpoint forEachM {X} (f : X -> M unit) (l : list X) : M unit :=
  match l with
  | [] => ret tt
  | x :: l' => f x ;; forEachM f l'
  end.

Fixpoint foldM {X A} (f : A -> X -> M A) (l : list X) (a : A) : M A :=
  match l with
  | [] => ret a
  | x :: l' => a' <- f a x ;; foldM f l' a'
  end.

(** The result of an outside call enters the monad as it is. *)
Definition lift {A} (c : completion A) : M A := fun st => (c, st).

Definition record_call (c : call) : M unit :=
  modify (fun st =>
    {| swagger := swagger st; resourcesMap := resourcesMap st;
       oauthSwagger := oauthSwagger st; operations := operations st;
       calls := (calls st ++ [c])%list |}).

Definition set_swagger (sw : option swaggerObject) (st : state) : state :=
  {| swagger := sw; resourcesMap := resourcesMap st;
     oauthSwagger := oauthSwagger st; operations := operations st;
     calls := calls st |}.

Definition set_resourcesMap (r : option registry) (st : state) : state :=
  {| swagger := swagger st; resourcesMap := r;
     oauthSwagger := oauthSwagger st; operations := operations st;
     calls := calls st |}.

Definition set_oauthSwagger (d : templateDoc) (st : state) : state :=
  {| swagger := swagger st; resourcesMap := resourcesMap st;
     oauthSwagger := d; operations := operations st;
     calls := calls st |}.

Definition set_operation (r : opRef) (op : operation) (st : state) : state :=
  {| swagger := swagger st; resourcesMap := resourcesMap st;
     oauthSwagger := oauthSwagger st;
     operations := fun r' => if Nat.eqb r' r then op else operations st r';
     calls := calls st |}.

Definition with_paths (p : option (list (string * pathItem))) (sw : swaggerObject)
  : swaggerObject :=
  {| x_a127_services := x_a127_services sw;
     x_volos_resources := x_volos_resources sw;
     paths := p; definitions := definitions sw |}.

Definition with_definitions (d : option obj) (sw : swaggerObject) : swaggerObject :=
  {| x_a127_services := x_a127_services sw;
     x_volos_resources := x_volos_resources sw;
     paths := paths sw; definitions := d |}.

(** [swagger], or the engine's error for reading property [p] of it. *)
Definition the_swagger (p : string) : M swaggerObject :=
  fun st =>
    match swagger st with
    | Some sw => (Normal sw, st)
    | None => (Throw (cannot_read p), st)
    end.

Definition update_swagger (f : swaggerObject -> swaggerObject) : M unit :=
  modify (fun st =>
    match swagger st with
    | Some sw => set_swagger (Some (f sw)) st
    | None => st
    end).

(** ** Security handlers (lines 75-112) *)

(** What one invocation of a handler did: the request afterwards, the
    arguments [cb] was called with ([None] for [cb()], [Some err] for
    [cb(err)]), and the calls made to [oauth.verifyToken]. *)
Record handlerResult : Type := {
  hr_request : request;
  hr_cb : option jsval;
  hr_verifyToken_calls : list (jsval * jsval)
}.

Definition field (k : string) (o : obj) : jsval :=
  match obj_get k o with
  | Some v => v
  | None => JUndefined
  end.

Definition set_token (t : jsval) (req : request) : request :=
  {| req_swagger := req_swagger req; req_headers := req_headers req;
     req_token := t; req_volos := req_volos req |}.

Definition SwaggerSecurityHandler (oauth : resource)
    (request0 : request) (securityDefinition : obj) (scopes : jsval)
  : handlerResult :=
  if negb (strict_eq_str (field "type" securityDefinition) "oauth2") then
    {| hr_request := request0; hr_cb := None; hr_verifyToken_calls := [] |}
  else
    let authorization := field "authorization" (req_headers request0) in
    let '(err, result) := verifyToken oauth authorization scopes in
    if truthy err then
      {| hr_request := request0; hr_cb := Some err;
         hr_verifyToken_calls := [(authorization, scopes)] |}
    else
      {| hr_request := set_token result request0; hr_cb := None;
         hr_verifyToken_calls := [(authorization, scopes)] |}.

Definition handler := request -> obj -> jsval -> handlerResult.

(** [_.each(resourcesMap, ...)] does nothing on [undefined]. *)
Definition swaggerSecurityHandlers (rm : option registry)
  : list (string * handler) :=
  fold_left
    (fun handlers (entry : string * resource) =>
       let '(name, resource0) := entry in
       if truthy (validGrantTypes resource0)
       then obj_set name (SwaggerSecurityHandler resource0) handlers
       else handlers)
    (match rm with Some r => r | None => [] end)
    [].

(** ** importOAuth (lines 197-232) *)

(** [paths.length === 0]: an object has no [length] unless it has a property
    of that name, and that one is a target path, a string. *)
Definition length_is_0 (paths0 : tokenPathsValue) : bool :=
  match paths0 with
  | TPArray [] => true
  | _ => false
  end.

(** What [_.filter(paths, f)] tests and what [_.each(paths, f)] passes as
    [(name, path)]. *)
Definition token_values (paths0 : tokenPathsValue) : list string :=
  match paths0 with
  | TPArray l => l
  | TPObject o => obj_values o
  end.

Definition token_entries (paths0 : tokenPathsValue) : list (string * string) :=
  match paths0 with
  | TPArray l => indexed_from 0 l
  | TPObject o => o
  end.

(** The value a property of [swagger.paths] is compared by: the template's
    path items are objects. *)
Definition item_value (it : pathItem) : jsval :=
  match it with
  | OwnItem v => v
  | TemplateItem _ => JObj []
  end.

Definition item_number (it : pathItem) : option Z := js_number (item_value it).

(** The values [_.contains(allPaths, ...)] searches: all of them, or
    [allPaths[0] .. allPaths[length - 1]] when [allPaths] is array-like. *)
Definition searched_paths (allPaths : list (string * pathItem)) : list jsval :=
  map item_value (collection_values item_number (OwnItem JUndefined) allPaths).

(** The values [_.filter(allDefinitions, ...)] tests, likewise. *)
Definition filtered_definitions (allDefinitions : obj) : list jsval :=
  collection_values js_number JUndefined allDefinitions.

(** [_.filter(paths, function(path) { return _.contains(allPaths, path); })] *)
Definition existingPaths (allPaths : list (string * pathItem))
    (paths0 : tokenPathsValue) : list string :=
  filter (fun path => contains_str (searched_paths allPaths) path)
         (token_values paths0).

(** [_.filter(allDefinitions, function(key) {
       return _.contains(Object.keys(oauthSwagger.definitions), key); })]:
    the argument the callback names [key] is a VALUE of [allDefinitions]. *)
Definition existingDefinitions (allDefinitions : obj) (tpl : templateDoc)
  : list jsval :=
  filter (fun key => existsb (strict_eq_str key) (obj_keys (tpl_definitions tpl)))
         (filtered_definitions allDefinitions).

Definition display (v : jsval) : string :=
  match v with
  | JStr s => s
  | _ => ""
  end.

Definition paths_exist_message (existing : list string) : string :=
  "Paths " ++ join_comma existing ++ " already exist. Cannot insert OAuth.".

Definition definitions_exist_message (existing : list jsval) : string :=
  "Definitions " ++ join_comma (map display existing)
    ++ " already exist. Cannot insert OAuth.".

Definition invalid_key_message (name : string) (tpl : templateDoc) : string :=
  "Invalid tokenPath key: " ++ name ++ ". Must be one of: "
    ++ join_comma (map substring1 (obj_keys (tpl_paths tpl))).

Definition or_empty {V} (o : option (list (string * V))) : list (string * V) :=
  match o with
  | Some l => l
  | None => []
  end.

(** [allPaths[path] = item] *)
Definition write_path (path : string) (it : pathItem) : M unit :=
  update_swagger (fun sw => with_paths (Some (obj_set path it (or_empty (paths sw)))) sw).

(** [allDefinitions[key] = value] *)
Definition write_definition (entry : string * obj) : M unit :=
  update_swagger (fun sw =>
    with_definitions
      (Some (obj_set (fst entry) (JObj (snd entry)) (or_empty (definitions sw)))) sw).

(** [allPaths[path][OAUTH_PROP] = resourceName], on the template's object. *)
Definition tag_template (keyPath resourceName : string) (tpl : templateDoc)
  : templateDoc :=
  match obj_get keyPath (tpl_paths tpl) with
  | Some item =>
      {| tpl_paths :=
           obj_set keyPath (obj_set OAUTH_PROP (JStr resourceName) item) (tpl_paths tpl);
         tpl_definitions := tpl_definitions tpl |}
  | None => tpl
  end.

(** The body of [_.each(paths, function(path, name) { ... })]. *)
Definition addTokenPath (resourceName : string) (entry : string * string) : M unit :=
  let '(name, path) := entry in
  let keyPath := "/" ++ name in
  tpl <- gets oauthSwagger ;;
  match obj_get keyPath (tpl_paths tpl) with
  | None =>
      write_path path (OwnItem JUndefined) ;;
      throw (Error (invalid_key_message name tpl))
  | Some _ =>
      write_path path (TemplateItem keyPath) ;;
      modify (fun st => set_oauthSwagger (tag_template keyPath resourceName (oauthSwagger st)) st)
  end.

Definition importOAuth (resourceName : string) (paths0 : tokenPathsValue) : M unit :=
  if length_is_0 paths0 then ret tt else
  sw <- the_swagger "paths" ;;
  let allPaths := or_empty (paths sw) in
  let allDefinitions := or_empty (definitions sw) in
  update_swagger (fun sw => with_paths (Some allPaths) sw) ;;
  update_swagger (fun sw => with_definitions (Some allDefinitions) sw) ;;
  match existingPaths allPaths paths0 with
  | (_ :: _) as existing => throw (Error (paths_exist_message existing))
  | [] =>
      tpl <- gets oauthSwagger ;;
      match existingDefinitions allDefinitions tpl with
      | (_ :: _) as existing => throw (Error (definitions_exist_message existing))
      | [] =>
          forEachM (addTokenPath resourceName) (token_entries paths0) ;;
          tpl' <- gets oauthSwagger ;;
          forEachM write_definition (tpl_definitions tpl')
      end
  end.

(** ** Registry construction (lines 125-130, 165-195) *)

(** [swagger[serviceDefNameTuple]] for the keys of [SERVICES]. *)
Definition swagger_services (sw : swaggerObject) (key : string)
  : option (list (string * serviceDefinition)) :=
  if String.eqb key "x-a127-services" then x_a127_services sw
  else if String.eqb key "x-volos-resources" then x_volos_resources sw
  else None.

Definition with_passwordCheck (h : jsval) (o : serviceOptions) : serviceOptions :=
  {| passwordCheck := h; tokenPaths := tokenPaths o; otherOptions := otherOptions o |}.

(** [serviceDefinition.options.passwordCheck = h], seen in the specification
    the definition belongs to. *)
Definition store_options (key serviceName : string) (o : serviceOptions)
    (sw : swaggerObject) : swaggerObject :=
  let upd (l : option (list (string * serviceDefinition))) :=
    match l with
    | Some defs =>
        match obj_get serviceName defs with
        | Some d => Some (obj_set serviceName {| provider := provider d; options := o |} defs)
        | None => Some defs
        end
    | None => None
    end in
  if String.eqb key "x-a127-services" then
    {| x_a127_services := upd (x_a127_services sw);
       x_volos_resources := x_volos_resources sw;
       paths := paths sw; definitions := definitions sw |}
  else if String.eqb key "x-volos-resources" then
    {| x_a127_services := x_a127_services sw;
       x_volos_resources := upd (x_volos_resources sw);
       paths := paths sw; definitions := definitions sw |}
  else sw.

Section Host.
(** The module system and the helper resolver: [require(provider)] gives a
    module whose [create(options)] builds the resource, and
    [helpers.getHelperFunction(label, reference)] gives the callable. *)
Variable require : string -> completion (serviceOptions -> completion resource).
Variable getHelperFunction : string -> jsval -> completion jsval.

(** The body of [_.each(swagger[key], function(serviceDefinition, serviceName)
    { ... })], with [services] threaded through. *)
Definition createService (key : string) (services : registry)
    (entry : string * serviceDefinition) : M registry :=
  let '(serviceName, serviceDefinition0) := entry in
  record_call (CallRequire (provider serviceDefinition0)) ;;
  module <- lift (require (provider serviceDefinition0)) ;;
  opts <- (if truthy (passwordCheck (options serviceDefinition0)) then
             let label := serviceName ++ " passwordCheck" in
             record_call (CallGetHelperFunction label
                            (passwordCheck (options serviceDefinition0))) ;;
             h <- lift (getHelperFunction label
                          (passwordCheck (options serviceDefinition0))) ;;
             let opts := with_passwordCheck h (options serviceDefinition0) in
             update_swagger (store_options key serviceName opts) ;;
             ret opts
           else ret (options serviceDefinition0)) ;;
  record_call (CallCreate (provider serviceDefinition0)) ;;
  service <- lift (module opts) ;;
  match tokenPaths opts with
  | Some tp => importOAuth serviceName tp
  | None => ret tt
  end ;;
  ret (obj_set serviceName service services).

Definition createServices (services : registry) (key : string) : M registry :=
  sw <- the_swagger key ;;
  foldM (createService key) (or_empty (swagger_services sw key)) services.

Definition createResources : M registry :=
  foldM createServices SERVICES [].

Definition setSwagger (swaggerObject0 : option swaggerObject) : M unit :=
  match swaggerObject0 with
  | Some sw =>
      modify (set_swagger (Some sw)) ;;
      r <- createResources ;;
      modify (set_resourcesMap (Some r))
  | None => ret tt
  end.
End Host.

(** ** Chain resolution and the middleware (lines 48-73, 115-163) *)

(** [operation[A127_AUTH] || req.swagger.path[A127_AUTH] ||
     operation[VOLOS_AUTH] || req.swagger.path[VOLOS_AUTH]]: an operand is
    evaluated only when everything before it is falsy. *)
Definition authorizations_of (op : operation) (path : jsval) : completion jsval :=
  if truthy (op_a127_authorizations op) then Normal (op_a127_authorizations op)
  else
    match prop_of path A127_AUTH with
    | None => Throw (cannot_read_of A127_AUTH path)
    | Some pa =>
        if truthy pa then Normal pa
        else if truthy (op_volos_authorizations op)
        then Normal (op_volos_authorizations op)
        else
          match prop_of path VOLOS_AUTH with
          | None => Throw (cannot_read_of VOLOS_AUTH path)
          | Some pv => Normal pv
          end
    end.

(** The body of [_.each(authorizations, function(authorization, name)
    { ... })], with [middlewares] threaded through. *)
Definition pushAuthenticate (middlewares : chain) (entry : string * jsval)
  : M chain :=
  let '(name, authorization) := entry in
  rm <- gets resourcesMap ;;
  match rm with
  | None => throw (cannot_read name)
  | Some r =>
      match obj_get name r with
      | None =>
          (* [resourcesMap[name]] is [undefined], or a member of
             [Object.prototype], which has no [connectMiddleware] *)
          if inherited name
          then throw (TypeError (NotAFunction "oauth.connectMiddleware"))
          else throw (cannot_read "connectMiddleware")
      | Some oauth =>
          record_call (CallConnectMiddleware name) ;;
          match prop_of authorization "scope" with
          | None => throw (cannot_read_of "scope" authorization)
          | Some scope =>
              record_call (CallAuthenticate name scope) ;;
              ret (middlewares ++ [AuthenticateStep name oauth scope])%list
          end
      end
  end.

Definition addResourcesToRequestMW : M middlewareStep :=
  r <- gets resourcesMap ;;
  ret (AddResourcesStep r).

Definition cached_chain (op : operation) : option chain :=
  match volos op with
  | Some slot => authChain slot
  | None => None
  end.

Definition with_authChain (c : chain) (op : operation) : operation :=
  {| operationId := operationId op;
     op_a127_authorizations := op_a127_authorizations op;
     op_volos_authorizations := op_volos_authorizations op;
     volos := Some {| authChain := Some c |} |}.

(** Lines 135-160 of [ifAuthenticated]: the chain of the operation [r]
    refers to, from the cache or built and cached. *)
Definition resolveAuthChain (path : jsval) (r : opRef) : M chain :=
  operation0 <- gets (fun st => operations st r) ;;
  match cached_chain operation0 with
  | Some c => ret c
  | None =>
      authorizations <- lift (authorizations_of operation0 path) ;;
      middlewares <- (if truthy authorizations
                      then foldM pushAuthenticate (each_entries authorizations) []
                      else ret []) ;;
      last <- addResourcesToRequestMW ;;
      let c := (middlewares ++ [last])%list in
      record_call (CallChain (length c)) ;;
      modify (set_operation r (with_authChain c operation0)) ;;
      ret c
  end.

(** How a request leaves the middleware. *)
Inductive outcome : Type :=
| Next                       (* next() *)
| NextWith (err : jsval)     (* next(err) *)
| Responded.

Definition set_volos (r : option registry) (req : request) : request :=
  {| req_swagger := req_swagger req; req_headers := req_headers req;
     req_token := req_token req; req_volos := Some r |}.

(** Modelled from the spec: [helpers.chain] lives in [lib/helpers.js], which is
    not among the sources at hand.  Steps run strictly in order; a step passes
    control on, fails (which ends the chain and surfaces the error), or
    produces the response itself (no further step runs).  The terminal step is
    the closure of [addResourcesToRequestMW]: [req.volos = resources; next()]. *)
Fixpoint runChain (c : chain) (req : request) : request * outcome :=
  match c with
  | [] => (req, Next)
  | AuthenticateStep _ oauth scope :: rest =>
      match authenticate oauth scope (field "authorization" (req_headers req)) with
      | StepPass result => runChain rest (set_token result req)
      | StepFail err => (req, NextWith err)
      | StepRespond => (req, Responded)
      end
  | AddResourcesStep r :: rest => runChain rest (set_volos r req)
  end.

Definition ifAuthenticated (req : request) : M (request * outcome) :=
  match req_swagger req with
  | None => throw (cannot_read "operation")
  | Some rs =>
      match rs_operation rs with
      | None => throw (cannot_read "volos")
      | Some r =>
          c <- resolveAuthChain (rs_path rs) r ;;
          record_call (CallRunChain (length c)) ;;
          ret (runChain c req)
      end
  end.

Section Middleware.
Variable require : string -> completion (serviceOptions -> completion resource).
Variable getHelperFunction : string -> jsval -> completion jsval.

Definition mwFunction (req : request) : M (request * outcome) :=
  match req_swagger req with
  | Some rs =>
      match rs_operation rs with
      | Some _ =>
          sw <- gets swagger ;;
          match sw with
          | None => setSwagger require getHelperFunction (rs_swaggerObject rs)
          | Some _ => ret tt
          end ;;
          ifAuthenticated req
      | None => ret (req, Next)
      end
  | None => ret (req, Next)
  end.

(** What [middleware(swaggerObject, config)] hangs on the function it
    returns. *)
Record attachments : Type := {
  mw_resources : option registry;
  mw_swaggerSecurityHandlers : list (string * handler)
}.

Definition middleware (swaggerObject0 : option swaggerObject) : M attachments :=
  setSwagger require getHelperFunction swaggerObject0 ;;
  rm <- gets resourcesMap ;;
  ret {| mw_resources := rm;
         mw_swaggerSecurityHandlers := swaggerSecurityHandlers rm |}.
End Middleware.

(** ** Notions the specification is stated with *)

(** A requirement source is either absent or a mapping from resource name to
    requirement. *)
Definition source_js (src : option obj) : jsval :=
  match src with
  | Some mapping => JObj mapping
  | None => JUndefined
  end.

(** The first source that is present, in the order given; absent when none
    is. *)
Fixpoint first_present (sources : list (option obj)) : option obj :=
  match sources with
  | [] => None
  | Some mapping :: _ => Some mapping
  | None :: rest => first_present rest
  end.

(** A handler rejects when the callback receives an error. *)
Definition rejects (res : handlerResult) : Prop :=
  exists err, hr_cb res = Some err /\ truthy err = true.



(** The first truthy value of the list, its last value when none is truthy:
    [a || b || ... || z]. *)
Fixpoint first_truthy (sources : list jsval) : jsval :=
  match sources with
  | [] => JUndefined
  | [v] => v
  | v :: rest => if truthy v then v else first_truthy rest
  end.


(** The requested targets that are the VALUE of some property of
    [allPaths], whichever way the object is walked. *)
Definition targets_among_values (allPaths : list (string * pathItem))
    (paths0 : tokenPathsValue) : list string :=
  filter (fun path => contains_str (map item_value (obj_values allPaths)) path)
         (token_values paths0).

(** The names and providers declared under the two service keys. *)
Definition declared_providers (sw : swaggerObject)
  : list (option (list (string * string))) :=
  map (fun key =>
         option_map (map (fun e : string * serviceDefinition =>
                            (fst e, provider (snd e))))
                    (swagger_services sw key))
      SERVICES.

(** The paths after the templates of [entries] were stored, in order. *)
Definition stored_templates (entries : list (string * string))
    (allPaths : list (string * pathItem)) : list (string * pathItem) :=
  fold_left (fun ps (e : string * string) =>
               obj_set (snd e) (TemplateItem ("/" ++ fst e)) ps)
            entries allPaths.

(** The template document after the path items of [entries] were tagged. *)
Definition tagged_templates (resourceName : string)
    (entries : list (string * string)) (tpl : templateDoc) : templateDoc :=
  fold_left (fun t (e : string * string) =>
               tag_template ("/" ++ fst e) resourceName t)
            entries tpl.

(** The definitions after those of the template were stored, in order. *)
Definition stored_definitions (tplDefinitions : list (string * obj))
    (allDefinitions : obj) : obj :=
  fold_left (fun ds (e : string * obj) => obj_set (fst e) (JObj (snd e)) ds)
            tplDefinitions allDefinitions.

(** The resource [createService] builds from one declaration. *)
Definition instance_of
    (require : string -> completion (serviceOptions -> completion resource))
    (getHelperFunction : string -> jsval -> completion jsval)
    (serviceName : string) (d : serviceDefinition) : completion resource :=
  match require (provider d) with
  | Throw e => Throw e
  | Normal module =>
      if truthy (passwordCheck (options d)) then
        match getHelperFunction (serviceName ++ " passwordCheck")
                                (passwordCheck (options d)) with
        | Throw e => Throw e
        | Normal h => module (with_passwordCheck h (options d))
        end
      else module (options d)
  end.

(** The state with the specification [sw] and the template document [tpl]
    in place. *)
Definition with_spec (sw : swaggerObject) (tpl : templateDoc) (st : state) : state :=
  {| swagger := Some sw; resourcesMap := resourcesMap st; oauthSwagger := tpl;
     operations := operations st; calls := calls st |}.

(** [st'] differs from [st] at most in the record of outside calls. *)
Definition same_but_calls (st st' : state) : Prop :=
  swagger st' = swagger st
  /\ resourcesMap st' = resourcesMap st
  /\ oauthSwagger st' = oauthSwagger st
  /\ operations st' = operations st.

(** The state with other operation objects. *)
Definition with_operations (ops : opRef -> operation) (st : state) : state :=
  {| swagger := swagger st; resourcesMap := resourcesMap st;
     oauthSwagger := oauthSwagger st; operations := ops; calls := calls st |}.

(** A computation that leaves a specification in place and does not touch
    its [x-volos-resources]. *)
Definition keeps_volos {A} (m : M A) : Prop :=
  forall st sw c st',
    swagger st = Some sw -> m st = (c, st') ->
    exists sw', swagger st' = Some sw'
                /\ x_volos_resources sw' = x_volos_resources sw.


(** [swagger.paths[path][OAUTH_PROP]], read through the template's object
    when the path holds one. *)
Definition owner_of (path : string) (st : state) : option jsval :=
  match swagger st with
  | Some sw =>
      match obj_get path (or_empty (paths sw)) with
      | Some (OwnItem v) =>
          match prop_of v OAUTH_PROP with Some x => Some x | None => None end
      | Some (TemplateItem keyPath) =>
          match obj_get keyPath (tpl_paths (oauthSwagger st)) with
          | Some item => obj_get OAUTH_PROP item
          | None => None
          end
      | None => None
      end
  | None => None
  end.

(** A path item carrying the name of the resource it belongs to. *)
Definition tagged (resourceName : string) (item : obj) : obj :=
  obj_set OAUTH_PROP (JStr resourceName) item.

(** The bundled document has a path item for the endpoint [name]. *)
Definition known (tpl : templateDoc) (name : string) : Prop :=
  obj_get ("/" ++ name) (tpl_paths tpl) <> None.

(** A computation that leaves one component of the state as it was,
    whatever its outcome. *)
Definition preserves {X A} (proj : state -> X) (m : M A) : Prop :=
  forall st c st', m st = (c, st') -> proj st' = proj st.

(** The pairs the chain builder walks: [if (authorizations) { _.each(...) }]. *)
Definition requirements (authorizations : jsval) : list (string * jsval) :=
  if truthy authorizations then each_entries authorizations else [].

(** The step the builder pushes for one requirement. *)
Definition step_for (rm : registry) (entry : string * jsval) (step : middlewareStep)
  : Prop :=
  exists oauth scope,
    obj_get (fst entry) rm = Some oauth
    /\ prop_of (snd entry) "scope" = Some scope
    /\ step = AuthenticateStep (fst entry) oauth scope.

(** The outside calls [createService] makes for one declaration. *)
Definition calls_for (entry : string * serviceDefinition) : list call :=
  let '(serviceName, d) := entry in
  (CallRequire (provider d)
   :: (if truthy (passwordCheck (options d))
       then [CallGetHelperFunction (serviceName ++ " passwordCheck")
                                   (passwordCheck (options d))]
       else [])
   ++ [CallCreate (provider d)])%list.

(** A computation that, when it returns normally, has made exactly the
    outside calls [cs], in that order. *)
Definition logs {A} (cs : list call) (m : M A) : Prop :=
  forall st a st', m st = (Normal a, st') -> calls st' = (calls st ++ cs)%list.

(** [!!swagger] *)
Definition has_swagger (st : state) : bool :=
  match swagger st with
  | Some _ => true
  | None => false
  end.

(** The object after the properties [key e := val e] were set, in order. *)
Definition fold_set {E V} (key : E -> string) (val : E -> V)
    (es : list E) (o : list (string * V)) : list (string * V) :=
  fold_left (fun acc e => obj_set (key e) (val e) acc) es o.

(** The declarations the installed specification has under [key]. *)
Definition declarations (key : string) (st : state)
  : list (string * serviceDefinition) :=
  match swagger st with
  | Some sw => or_empty (swagger_services sw key)
  | None => []
  end.

(** The declaration as [createService] leaves it in the specification: a
    truthy [passwordCheck] is replaced by what the helper resolver gives. *)
Definition resolved (getHelperFunction : string -> jsval -> completion jsval)
    (serviceName : string) (d : serviceDefinition) : completion serviceDefinition :=
  if truthy (passwordCheck (options d)) then
    match getHelperFunction (serviceName ++ " passwordCheck")
                            (passwordCheck (options d)) with
    | Normal h =>
        Normal {| provider := provider d;
                  options := with_passwordCheck h (options d) |}
    | Throw e => Throw e
    end
  else Normal d.

(** A computation that leaves a specification in place, with the names and
    providers it declares. *)
Definition keeps_declared {A} (m : M A) : Prop :=
  forall st sw c st',
    swagger st = Some sw -> m st = (c, st') ->
    exists sw', swagger st' = Some sw'
                /\ declared_providers sw' = declared_providers sw.

(** A declaration that asks neither for a password check nor for token
    paths: the two things [createService] writes into the specification
    for. *)
Definition plain_declaration (e : string * serviceDefinition) : bool :=
  negb (truthy (passwordCheck (options (snd e))))
  && match tokenPaths (options (snd e)) with
     | Some _ => false
     | None => true
     end.

Definition plain_declarations (sw : swaggerObject) : bool :=
  forallb (fun key => forallb plain_declaration (or_empty (swagger_services sw key)))
          SERVICES.

(** ** Sample documents, resources and requests *)

Module Sample.
Definition template : templateDoc :=
  {| tpl_paths :=
       [("/authorize", [("get", JObj [("operationId", JStr "authorize")])]);
        ("/token", [("post", JObj [("operationId", JStr "token")])])];
     tpl_definitions :=
       [("token_response", [("type", JStr "object")])] |}.

Definition plainOptions : serviceOptions :=
  {| passwordCheck := JUndefined; tokenPaths := None; otherOptions := [] |}.

Definition grant : jsval := JObj [("developerEmail", JStr "dev@example.com")].

(** An oauth resource that accepts exactly the credential "Bearer good". *)
Definition oauth (providerName : string) (opts : serviceOptions) : resource :=
  {| res_provider := providerName;
     res_options := opts;
     validGrantTypes := JArr [JStr "password"];
     verifyToken := fun credential _ =>
       if strict_eq_str credential "Bearer good"
       then (JUndefined, grant)
       else (JStr "invalid_token", JUndefined);
     authenticate := fun _ credential =>
       if strict_eq_str credential "Bearer good"
       then StepPass grant
       else StepFail (JStr "invalid_token") |}.

Definition require (providerName : string)
  : completion (serviceOptions -> completion resource) :=
  Normal (fun opts => Normal (oauth providerName opts)).

Definition getHelperFunction (label : string) (_ : jsval) : completion jsval :=
  Normal (JFunction label 3).

Definition emptySwagger : swaggerObject :=
  {| x_a127_services := None; x_volos_resources := None;
     paths := Some []; definitions := Some [] |}.

Definition registry1 : registry := [("oauth2", oauth "volos-oauth-apigee" plainOptions)].

Definition writeScope : obj := [("oauth2", JObj [("scope", JStr "write")])].
Definition readScope : obj := [("oauth2", JObj [("scope", JStr "read")])].

(** [POST /orders], requiring [{oauth2: {scope: "write"}}]. *)
Definition postOrders : operation :=
  {| operationId := JStr "postOrders";
     op_a127_authorizations := JObj writeScope;
     op_volos_authorizations := JUndefined;
     volos := None |}.

(** An operation whose requirement names a resource nobody declared. *)
Definition getReports : operation :=
  {| operationId := JStr "getReports";
     op_a127_authorizations := JObj [("apikey", JObj [("scope", JStr "read")])];
     op_volos_authorizations := JUndefined;
     volos := None |}.

Definition operationsTable (r : opRef) : operation :=
  match r with
  | 0 => postOrders
  | _ => getReports
  end.

Definition state_of (sw : swaggerObject) (rm : option registry) : state :=
  {| swagger := Some sw; resourcesMap := rm; oauthSwagger := template;
     operations := operationsTable; calls := [] |}.

Definition state1 : state := state_of emptySwagger (Some registry1).

Definition request_for (r : option opRef) (credential : string) : request :=
  {| req_swagger :=
       Some {| rs_operation := r; rs_path := JObj [];
               rs_swaggerObject := Some emptySwagger |};
     req_headers := [("authorization", JStr credential)];
     req_token := JUndefined;
     req_volos := None |}.

(** A specification that already routes [/accesstoken] and already defines
    [token_response]. *)
Definition occupiedSwagger : swaggerObject :=
  {| x_a127_services := None; x_volos_resources := None;
     paths := Some [("/accesstoken",
                     OwnItem (JObj [("post", JObj [("operationId", JStr "legacyToken")])]))];
     definitions := Some [("token_response", JObj [("type", JStr "string")])] |}.

(** The name "oauth2" declared under both service keys, by two providers. *)
Definition twiceDeclared : swaggerObject :=
  {| x_a127_services :=
       Some [("oauth2", {| provider := "volos-oauth-apigee"; options := plainOptions |})];
     x_volos_resources :=
       Some [("oauth2", {| provider := "volos-oauth-redis"; options := plainOptions |})];
     paths := Some []; definitions := Some [] |}.

(** A specification in which some property of [paths] has the string
    "/accesstoken" as its value. *)
Definition aliasSwagger : swaggerObject :=
  {| x_a127_services := None; x_volos_resources := None;
     paths := Some [("/alias", OwnItem (JStr "/accesstoken"))];
     definitions := None |}.

(** A host whose module system knows no provider. *)
Definition brokenRequire (providerName : string)
  : completion (serviceOptions -> completion resource) :=
  Throw (HostError ("Cannot find module '" ++ providerName ++ "'")).

(** One oauth declaration whose password check names a helper function. *)
Definition checkedOptions : serviceOptions :=
  {| passwordCheck := JStr "volos.passwordCheck"; tokenPaths := None;
     otherOptions := [] |}.

Definition checkedSwagger : swaggerObject :=
  {| x_a127_services :=
       Some [("oauth2", {| provider := "volos-oauth-apigee"; options := checkedOptions |})];
     x_volos_resources := None;
     paths := None; definitions := None |}.

(** Two resources, of which only the first is an oauth resource. *)
Definition quota : resource :=
  {| res_provider := "volos-quota-memory";
     res_options := plainOptions;
     validGrantTypes := JUndefined;
     verifyToken := fun _ _ => (JStr "unsupported", JUndefined);
     authenticate := fun _ _ => StepFail (JStr "unsupported") |}.

Definition registry2 : registry :=
  [("oauth2", oauth "volos-oauth-apigee" plainOptions); ("quota", quota)].

Definition staticRequest : request :=
  {| req_swagger := None; req_headers := []; req_token := JUndefined;
     req_volos := None |}.

(** The module before any specification was loaded. *)
Definition freshState : state :=
  {| swagger := None; resourcesMap := None; oauthSwagger := template;
     operations := operationsTable; calls := [] |}.

(** An operation whose current-style key is present with no value. *)
Definition ping : operation :=
  {| operationId := JStr "ping";
     op_a127_authorizations := JNull;
     op_volos_authorizations := JUndefined;
     volos := None |}.

(** A requirement mapping with a numeric [length] of its own. *)
Definition indexedScope : obj :=
  [("oauth2", JObj [("scope", JStr "write")]); ("length", JNum 0)].

Definition countOrders : operation :=
  {| operationId := JStr "countOrders";
     op_a127_authorizations := JObj indexedScope;
     op_volos_authorizations := JUndefined;
     volos := None |}.


(** [aliasSwagger] with a numeric [length] among its paths. *)
Definition indexedSwagger : swaggerObject :=
  {| x_a127_services := None; x_volos_resources := None;
     paths := Some [("/alias", OwnItem (JStr "/accesstoken"));
                    ("length", OwnItem (JNum 0))];
     definitions := None |}.
End Sample.

(** * Properties *)

#[local] Arguments String.append : simpl never.
Unset Implicit Arguments.

(** ** Objects *)

Section PropertyFacts.
Context {V : Type}.
Implicit Types (o : list (string * V)) (k : string) (v : V).

Lemma obj_get_set_eq k v o : obj_get k (obj_set k v o) = Some v.
Proof.
  induction o as [|[k' v'] o IH]; simpl.
  - now rewrite String.eqb_refl.
  - destruct (String.eqb k k') eqn:E; simpl.
    + now rewrite String.eqb_refl.
    + now rewrite E.
Qed.

Lemma obj_get_set_neq k k' v o :
  k <> k' -> obj_get k (obj_set k' v o) = obj_get k o.
Proof.
  intros Hne. induction o as [|[k2 v2] o IH]; simpl.
  - apply String.eqb_neq in Hne. now rewrite Hne.
  - destruct (String.eqb k' k2) eqn:E; simpl.
    + apply String.eqb_eq in E. subst k2.
      apply String.eqb_neq in Hne. now rewrite Hne.
    + destruct (String.eqb k k2); auto.
Qed.

Lemma obj_keys_set_present k v o :
  obj_get k o <> None -> obj_keys (obj_set k v o) = obj_keys o.
Proof.
  unfold obj_keys. induction o as [|[k' v'] o IH]; simpl; intros H.
  - congruence.
  - destruct (String.eqb k k') eqn:E; simpl.
    + apply String.eqb_eq in E. now subst.
    + now rewrite IH.
Qed.

Lemma In_obj_set k v k' v' o :
  In (k, v) (obj_set k' v' o) -> (k = k' /\ v = v') \/ In (k, v) o.
Proof.
  induction o as [|[k2 v2] o IH]; simpl.
  - intros [H|[]]. inversion H. auto.
  - destruct (String.eqb k' k2) eqn:E; simpl.
    + intros [H|H]; [inversion H; auto | auto].
    + intros [H|H]; [auto | destruct (IH H); auto].
Qed.
End PropertyFacts.

Lemma filter_nil_iff {V} (f : V -> bool) l :
  filter f l = [] <-> (forall x, In x l -> f x = false).
Proof.
  induction l as [|y l IH]; simpl.
  - split; [intros _ x [] | reflexivity].
  - destruct (f y) eqn:E.
    + split; [discriminate|]. intros H. specialize (H y (or_introl eq_refl)). congruence.
    + rewrite IH. split.
      * intros H x [<-|Hin]; auto.
      * intros H x Hin. apply H. now right.
Qed.

Lemma In_values_set {V} k (v w : V) o :
  In w (obj_values (obj_set k v o)) -> w = v \/ In w (obj_values o).
Proof.
  unfold obj_values. induction o as [|[k' v'] o IH]; simpl.
  - intros [H|[]]; auto.
  - destruct (String.eqb k k'); simpl.
    + intros [H|H]; auto.
    + intros [H|H]; auto. destruct (IH H); auto.
Qed.

Lemma obj_get_In {V} k (v : V) (o : list (string * V)) :
  obj_get k o = Some v -> In (k, v) o.
Proof.
  induction o as [|[k' v'] o IH]; simpl; intros H; [discriminate|].
  destruct (String.eqb k k') eqn:E.
  - apply String.eqb_eq in E. inversion H. subst. now left.
  - right. auto.
Qed.

(** Whichever way a collection is walked, the values met are values of its
    properties, or [undefined]. *)
Lemma collection_values_In {V} (number_of : V -> option Z) (undefined v : V)
    (o : list (string * V)) :
  In v (collection_values number_of undefined o) ->
  v = undefined \/ In v (obj_values o).
Proof.
  unfold collection_values, collection_entries.
  destruct (array_length number_of o) as [n|]; [|now right].
  rewrite map_map. simpl. intros Hin. apply in_map_iff in Hin.
  destruct Hin as [i [<- _]]. unfold at_index.
  destruct (obj_get (index_name i) o) as [w|] eqn:E; [|now left].
  right. apply obj_get_In in E. now apply (in_map snd) in E.
Qed.

Lemma existsb_false {V} (f : V -> bool) l :
  existsb f l = false <-> (forall x, In x l -> f x = false).
Proof.
  induction l as [|y l IH]; simpl.
  - split; [intros _ x [] | reflexivity].
  - rewrite orb_false_iff, IH. split.
    + intros [H1 H2] x [<-|Hin]; auto.
    + intros H. split; [apply H; now left | intros x Hin; apply H; now right].
Qed.

(** ** The monad *)

Ltac run :=
  unfold bind, ret, gets, modify, lift, throw, record_call in *; simpl in *.

Lemma forEachM_cons {X} (f : X -> M unit) x l st :
  forEachM f (x :: l) st
  = match f x st with
    | (Normal _, st') => forEachM f l st'
    | (Throw e, st') => (Throw e, st')
    end.
Proof. reflexivity. Qed.

Lemma foldM_cons {X A} (f : A -> X -> M A) x l a st :
  foldM f (x :: l) a st
  = match f a x st with
    | (Normal a', st') => foldM f l a' st'
    | (Throw e, st') => (Throw e, st')
    end.
Proof. reflexivity. Qed.

(** ** Chain resolution: the cache *)

Lemma resolveAuthChain_hit path r st c :
  cached_chain (operations st r) = Some c ->
  resolveAuthChain path r st = (Normal c, st).
Proof.
  intros H. unfold resolveAuthChain. run. now rewrite H.
Qed.

Lemma resolveAuthChain_caches path r st c st1 :
  resolveAuthChain path r st = (Normal c, st1) ->
  cached_chain (operations st1 r) = Some c.
Proof.
  unfold resolveAuthChain. run.
  destruct (cached_chain (operations st r)) as [c0|] eqn:Hc.
  - intros H. inversion H; subst. exact Hc.
  - destruct (authorizations_of (operations st r) path) as [a|e]; [|discriminate].
    destruct (if truthy a then foldM pushAuthenticate (each_entries a) [] else _)
      as [[m|e] st2] eqn:Hm; [|discriminate].
    unfold addResourcesToRequestMW. run.
    intros H. inversion H; subst. simpl.
    now rewrite Nat.eqb_refl.
Qed.

(** C1: an operation that carries a cached chain resolves to that very chain
    with the module state (specification, registry, operations, outside calls)
    exactly as it was; and once a resolution has returned a chain, resolving
    the same operation again returns the same chain and changes nothing. *)
Theorem resolveAuthChain_memoized (path : jsval) (r : opRef) (st : state) :
  (forall c, cached_chain (operations st r) = Some c ->
             resolveAuthChain path r st = (Normal c, st))
  /\ (forall path' c st1,
        resolveAuthChain path r st = (Normal c, st1) ->
        resolveAuthChain path' r st1 = (Normal c, st1)).
Proof.
  split.
  - intros c H. now apply resolveAuthChain_hit.
  - intros path' c st1 H.
    apply resolveAuthChain_hit. eapply resolveAuthChain_caches; eauto.
Qed.

Lemma resolveAuthChain_memoized_witness :
  exists c st1,
    resolveAuthChain (JObj []) 0 Sample.state1 = (Normal c, st1)
    /\ resolveAuthChain (JObj []) 0 st1 = (Normal c, st1)
    /\ length c = 2.
Proof.
  eexists. eexists. split; [lazy; reflexivity|]. split; [|reflexivity].
  apply (proj2 (resolveAuthChain_memoized (JObj []) 0 Sample.state1)).
  lazy; reflexivity.
Defined.

(** ** The requirement mapping of an operation *)

Lemma truthy_source_js src :
  truthy (source_js src) = match src with Some _ => true | None => false end.
Proof. now destruct src. Qed.

(** With each of the four sources either absent or a mapping, the mapping
    chosen is the first present one in the order operation-level current,
    path-level current, operation-level legacy, path-level legacy (absent when
    none is present); an empty mapping counts as present; and when the
    operation-level current source is present the path is not even read, so
    the choice is the same whatever [req.swagger.path] is. *)
Lemma authorizations_priority
    (op : operation) (pathItem0 : obj) (opCurrent pathCurrent opLegacy pathLegacy : option obj) :
  op_a127_authorizations op = source_js opCurrent ->
  field A127_AUTH pathItem0 = source_js pathCurrent ->
  op_volos_authorizations op = source_js opLegacy ->
  field VOLOS_AUTH pathItem0 = source_js pathLegacy ->
  authorizations_of op (JObj pathItem0)
    = Normal (source_js (first_present [opCurrent; pathCurrent; opLegacy; pathLegacy]))
  /\ (forall mapping anyPath,
        opCurrent = Some mapping ->
        authorizations_of op anyPath = Normal (JObj mapping)).
Proof.
  intros H1 H2 H3 H4. split.
  - unfold authorizations_of, prop_of. fold (field A127_AUTH pathItem0).
    fold (field VOLOS_AUTH pathItem0).
    rewrite H1, H2, H3, H4, !truthy_source_js.
    destruct opCurrent, pathCurrent, opLegacy, pathLegacy; reflexivity.
  - intros mapping anyPath ->. unfold authorizations_of. now rewrite H1.
Qed.

Lemma authorizations_priority_witness :
  authorizations_of Sample.postOrders (JObj [(VOLOS_AUTH, JObj Sample.readScope)])
    = Normal (JObj Sample.writeScope)
  /\ authorizations_of Sample.postOrders JUndefined = Normal (JObj Sample.writeScope).
Proof.
  destruct (@authorizations_priority Sample.postOrders
              [(VOLOS_AUTH, JObj Sample.readScope)]
              (Some Sample.writeScope) None None (Some Sample.readScope)
              eq_refl eq_refl eq_refl eq_refl) as [H1 H2].
  split; [exact H1 | exact (H2 Sample.writeScope JUndefined eq_refl)].
Defined.

Lemma falsy_values (v : jsval) :
  truthy v = false
  <-> v = JUndefined \/ v = JNull \/ v = JBool false \/ v = JNum 0 \/ v = JStr "".
Proof.
  split.
  - destruct v as [| |b|n|s|l a|l|o]; simpl; intros H; try discriminate; auto.
    + destruct b; [discriminate|auto].
    + apply negb_false_iff, Z.eqb_eq in H. subst. auto 6.
    + apply negb_false_iff, String.eqb_eq in H. subst. auto 6.
  - intros [->|[->|[->|[->| ->]]]]; reflexivity.
Qed.

(** C2, as the code has it: whatever the four sources hold, the value chosen
    is the first TRUTHY one in the order operation-level current, path-level
    current, operation-level legacy, path-level legacy, and the last source
    itself when none is truthy.  A source falls through exactly when it is
    falsy: absent, or present as [null], [false], [0] or the empty string.
    Every mapping, the empty one included, is truthy, hence terminal; and
    when the operation-level current source is truthy the path is not even
    read, so the choice is the same whatever [req.swagger.path] is. *)
Theorem authorizations_first_truthy (op : operation) (pathItem0 : obj) :
  authorizations_of op (JObj pathItem0)
  = Normal (first_truthy [op_a127_authorizations op; field A127_AUTH pathItem0;
                          op_volos_authorizations op; field VOLOS_AUTH pathItem0])
  /\ (forall v, truthy v = false
                <-> v = JUndefined \/ v = JNull \/ v = JBool false
                    \/ v = JNum 0 \/ v = JStr "")
  /\ (forall mapping, truthy (JObj mapping) = true)
  /\ (forall anyPath,
        truthy (op_a127_authorizations op) = true ->
        authorizations_of op anyPath = Normal (op_a127_authorizations op)).
Proof.
  split; [|split; [|split]].
  - unfold authorizations_of, prop_of. fold (field A127_AUTH pathItem0).
    fold (field VOLOS_AUTH pathItem0). cbn [first_truthy].
    destruct (truthy (op_a127_authorizations op)); [reflexivity|].
    destruct (truthy (field A127_AUTH pathItem0)); [reflexivity|].
    destruct (truthy (op_volos_authorizations op)); reflexivity.
  - exact falsy_values.
  - reflexivity.
  - intros anyPath H. unfold authorizations_of. now rewrite H.
Qed.

Lemma authorizations_first_truthy_witness :
  authorizations_of Sample.ping
    (JObj [(A127_AUTH, JBool false); (VOLOS_AUTH, JObj Sample.readScope)])
  = Normal (JObj Sample.readScope)
  /\ authorizations_of Sample.postOrders JUndefined = Normal (JObj Sample.writeScope).
Proof.
  split.
  - exact (proj1 (authorizations_first_truthy Sample.ping
                    [(A127_AUTH, JBool false); (VOLOS_AUTH, JObj Sample.readScope)])).
  - exact (proj2 (proj2 (proj2 (authorizations_first_truthy Sample.postOrders [])))
             JUndefined eq_refl).
Defined.

(** A source that is present, with the value [null] (a key with nothing
    after it in the YAML document), is not terminal: the path-level mapping is
    chosen. *)
Lemma present_null_source_falls_through :
  op_a127_authorizations Sample.ping = JNull
  /\ authorizations_of Sample.ping (JObj [(A127_AUTH, JObj Sample.readScope)])
     = Normal (JObj Sample.readScope).
Proof. split; reflexivity. Qed.

(** An explicitly empty mapping on the operation hides a non-empty one on the
    path. *)
Example empty_mapping_is_terminal :
  authorizations_of
    {| operationId := JStr "ping"; op_a127_authorizations := JObj [];
       op_volos_authorizations := JUndefined; volos := None |}
    (JObj [(A127_AUTH, JObj Sample.readScope)])
  = Normal (JObj []).
Proof. reflexivity. Qed.

(** ** Requests without a matched operation *)

Section Bypass.
Variable require : string -> completion (serviceOptions -> completion resource).
Variable getHelperFunction : string -> jsval -> completion jsval.

(** C10: a request without swagger metadata, or whose metadata has no
    operation, goes straight to [next()]: the request comes back as it was
    and the module state is untouched, so no chain was resolved or run, no
    resource was built or called, no specification was installed. *)
Theorem mwFunction_bypass (req : request) (st : state) :
  (req_swagger req = None
   \/ exists rs, req_swagger req = Some rs /\ rs_operation rs = None) ->
  mwFunction require getHelperFunction req st = (Normal (req, Next), st).
Proof.
  intros [H | [rs [H1 H2]]]; unfold mwFunction.
  - now rewrite H.
  - now rewrite H1, H2.
Qed.
End Bypass.

Lemma mwFunction_bypass_witness :
  mwFunction Sample.require Sample.getHelperFunction Sample.staticRequest Sample.state1
    = (Normal (Sample.staticRequest, Next), Sample.state1)
  /\ mwFunction Sample.require Sample.getHelperFunction
       (Sample.request_for None "Bearer good") Sample.state1
    = (Normal (Sample.request_for None "Bearer good", Next), Sample.state1).
Proof.
  split.
  - apply mwFunction_bypass. left. reflexivity.
  - apply mwFunction_bypass. right. eexists. split; reflexivity.
Defined.

(** ** Security handlers *)

Lemma swaggerSecurityHandlers_In_acc (rm : registry) :
  forall (acc : list (string * handler)) name h,
    In (name, h)
       (fold_left
          (fun handlers (entry : string * resource) =>
             let '(name, resource0) := entry in
             if truthy (validGrantTypes resource0)
             then obj_set name (SwaggerSecurityHandler resource0) handlers
             else handlers)
          rm acc) ->
    In (name, h) acc
    \/ exists oauth, In (name, oauth) rm
                     /\ truthy (validGrantTypes oauth) = true
                     /\ h = SwaggerSecurityHandler oauth.
Proof.
  induction rm as [|[n r0] rm IH]; simpl; intros acc name h H.
  - now left.
  - apply IH in H. destruct H as [H | [oauth [Hin [Ht Hh]]]].
    + destruct (truthy (validGrantTypes r0)) eqn:Ht.
      * apply In_obj_set in H. destruct H as [[-> ->] | H]; [|now left].
        right. exists r0. auto.
      * now left.
    + right. exists oauth. auto.
Qed.

Lemma handler_wrong_type oauth req sd scopes :
  strict_eq_str (field "type" sd) "oauth2" = false ->
  SwaggerSecurityHandler oauth req sd scopes
    = {| hr_request := req; hr_cb := None; hr_verifyToken_calls := [] |}.
Proof. intros H. unfold SwaggerSecurityHandler. now rewrite H. Qed.

(** C8, as the code has it: every derived handler belongs to a registered
    resource with [validGrantTypes].  When [securityDefinition.type] is not
    "oauth2" it calls [cb()] at once, with no error, without calling
    [verifyToken] and without touching the request.  Otherwise it calls
    [verifyToken] once with [request.headers.authorization] and the scopes; a
    truthy error goes to [cb(err)] and the request stays as it was; otherwise
    the result is stored in [request.token] and [cb()] is called. *)
Theorem security_handler_behaviour (rm : registry) (name : string) (h : handler) :
  In (name, h) (swaggerSecurityHandlers (Some rm)) ->
  exists oauth,
    In (name, oauth) rm /\ truthy (validGrantTypes oauth) = true /\
    forall req sd scopes,
      let res := h req sd scopes in
      let credential := field "authorization" (req_headers req) in
      let verdict := verifyToken oauth credential scopes in
      (strict_eq_str (field "type" sd) "oauth2" = false ->
         hr_cb res = None /\ hr_request res = req /\ hr_verifyToken_calls res = [])
      /\ (strict_eq_str (field "type" sd) "oauth2" = true ->
            hr_verifyToken_calls res = [(credential, scopes)]
            /\ (truthy (fst verdict) = true ->
                  hr_cb res = Some (fst verdict) /\ hr_request res = req)
            /\ (truthy (fst verdict) = false ->
                  hr_cb res = None
                  /\ hr_request res = set_token (snd verdict) req)).
Proof.
  intros H. apply swaggerSecurityHandlers_In_acc in H.
  destruct H as [[] | [oauth [Hin [Ht ->]]]].
  exists oauth. split; [exact Hin|]. split; [exact Ht|].
  intros req sd scopes. cbv zeta. split.
  - intros Hty. now rewrite handler_wrong_type.
  - intros Hty. unfold SwaggerSecurityHandler. rewrite Hty. simpl.
    destruct (verifyToken oauth (field "authorization" (req_headers req)) scopes)
      as [err result]; simpl.
    destruct (truthy err); simpl; repeat split; auto; discriminate.
Qed.

Lemma security_handler_behaviour_witness :
  let h := SwaggerSecurityHandler (Sample.oauth "volos-oauth-apigee" Sample.plainOptions) in
  In ("oauth2", h) (swaggerSecurityHandlers (Some Sample.registry1))
  /\ exists oauth,
       In ("oauth2", oauth) Sample.registry1 /\ truthy (validGrantTypes oauth) = true /\
       forall req sd scopes,
         let res := h req sd scopes in
         let credential := field "authorization" (req_headers req) in
         let verdict := verifyToken oauth credential scopes in
         (strict_eq_str (field "type" sd) "oauth2" = false ->
            hr_cb res = None /\ hr_request res = req /\ hr_verifyToken_calls res = [])
         /\ (strict_eq_str (field "type" sd) "oauth2" = true ->
               hr_verifyToken_calls res = [(credential, scopes)]
               /\ (truthy (fst verdict) = true ->
                     hr_cb res = Some (fst verdict) /\ hr_request res = req)
               /\ (truthy (fst verdict) = false ->
                     hr_cb res = None
                     /\ hr_request res = set_token (snd verdict) req)).
Proof.
  cbv zeta.
  assert (Hin : In ("oauth2",
                    SwaggerSecurityHandler (Sample.oauth "volos-oauth-apigee" Sample.plainOptions))
                   (swaggerSecurityHandlers (Some Sample.registry1)))
    by (left; reflexivity).
  split; [exact Hin|].
  exact (security_handler_behaviour Sample.registry1 _ _ Hin).
Defined.

(** At a declaration of type "basic" the handler does not reject: the
    callback is called without an error, exactly as after a successful
    verification, and the resource was never asked. *)
Lemma security_handler_wrong_type_not_rejected :
  let oauth := Sample.oauth "volos-oauth-apigee" Sample.plainOptions in
  let res := SwaggerSecurityHandler oauth (Sample.request_for (Some 0) "Bearer bad")
               [("type", JStr "basic")] (JStr "write") in
  strict_eq_str (field "type" [("type", JStr "basic")]) "oauth2" = false
  /\ ~ rejects res
  /\ hr_cb res = hr_cb (SwaggerSecurityHandler oauth
                          (Sample.request_for (Some 0) "Bearer good")
                          [("type", JStr "oauth2")] (JStr "write")).
Proof.
  cbv zeta. split; [reflexivity|]. split; [|reflexivity].
  intros [err [H _]]. discriminate H.
Qed.

(** ** Flow-endpoint injection *)

Lemma tag_template_definitions k r tpl :
  tpl_definitions (tag_template k r tpl) = tpl_definitions tpl.
Proof. unfold tag_template. now destruct (obj_get k (tpl_paths tpl)). Qed.

Lemma tag_template_keys k r tpl :
  obj_keys (tpl_paths (tag_template k r tpl)) = obj_keys (tpl_paths tpl).
Proof.
  unfold tag_template. destruct (obj_get k (tpl_paths tpl)) eqn:E; simpl; auto.
  apply obj_keys_set_present. congruence.
Qed.

Lemma tag_template_known k r tpl name :
  known (tag_template k r tpl) name <-> known tpl name.
Proof.
  unfold known, tag_template.
  destruct (obj_get k (tpl_paths tpl)) eqn:E; simpl; [|tauto].
  destruct (string_dec ("/" ++ name) k) as [->|Hne].
  - rewrite obj_get_set_eq, E. split; congruence.
  - now rewrite obj_get_set_neq.
Qed.

Lemma tagged_templates_keys r entries : forall tpl,
  obj_keys (tpl_paths (tagged_templates r entries tpl)) = obj_keys (tpl_paths tpl).
Proof.
  unfold tagged_templates.
  induction entries as [|e entries IH]; simpl; intros tpl; auto.
  rewrite IH. apply tag_template_keys.
Qed.

Lemma tagged_templates_definitions r entries : forall tpl,
  tpl_definitions (tagged_templates r entries tpl) = tpl_definitions tpl.
Proof.
  unfold tagged_templates.
  induction entries as [|e entries IH]; simpl; intros tpl; auto.
  rewrite IH. apply tag_template_definitions.
Qed.

(** One turn of the loop over the requested endpoints. *)
Lemma addTokenPath_known r name path ps sw tpl st :
  known tpl name ->
  addTokenPath r (name, path) (with_spec (with_paths (Some ps) sw) tpl st)
  = (Normal tt,
     with_spec (with_paths (Some (obj_set path (TemplateItem ("/" ++ name)) ps)) sw)
               (tag_template ("/" ++ name) r tpl) st).
Proof.
  unfold known, addTokenPath. run.
  destruct (obj_get ("/" ++ name) (tpl_paths tpl)) eqn:E; [|congruence].
  intros _. reflexivity.
Qed.

Lemma addTokenPath_unknown r name path ps sw tpl st :
  obj_get ("/" ++ name) (tpl_paths tpl) = None ->
  addTokenPath r (name, path) (with_spec (with_paths (Some ps) sw) tpl st)
  = (Throw (Error (invalid_key_message name tpl)),
     with_spec (with_paths (Some (obj_set path (OwnItem JUndefined) ps)) sw) tpl st).
Proof.
  unfold addTokenPath. run. intros E. rewrite E. reflexivity.
Qed.

Lemma addTokenPaths_known r entries : forall ps sw tpl st,
  (forall n p, In (n, p) entries -> known tpl n) ->
  forEachM (addTokenPath r) entries (with_spec (with_paths (Some ps) sw) tpl st)
  = (Normal tt,
     with_spec (with_paths (Some (stored_templates entries ps)) sw)
               (tagged_templates r entries tpl) st).
Proof.
  induction entries as [|[n p] entries IH]; intros ps sw tpl st Hk.
  - reflexivity.
  - rewrite forEachM_cons.
    rewrite addTokenPath_known by (eapply Hk; left; reflexivity).
    rewrite IH; [reflexivity|].
    intros n' p' Hin. apply tag_template_known. eapply Hk. right. exact Hin.
Qed.

Lemma addTokenPaths_unknown r before name path after : forall ps sw tpl st,
  (forall n p, In (n, p) before -> known tpl n) ->
  obj_get ("/" ++ name) (tpl_paths tpl) = None ->
  forEachM (addTokenPath r) (before ++ (name, path) :: after)
           (with_spec (with_paths (Some ps) sw) tpl st)
  = (Throw (Error (invalid_key_message name tpl)),
     with_spec (with_paths
                  (Some (obj_set path (OwnItem JUndefined) (stored_templates before ps)))
                  sw)
               (tagged_templates r before tpl) st).
Proof.
  induction before as [|[n p] before IH]; intros ps sw tpl st Hk Hun.
  - simpl app. rewrite forEachM_cons. now rewrite addTokenPath_unknown.
  - simpl app. rewrite forEachM_cons.
    rewrite addTokenPath_known by (eapply Hk; left; reflexivity).
    rewrite IH.
    + unfold invalid_key_message. now rewrite tag_template_keys.
    + intros n' p' Hin. apply tag_template_known. eapply Hk. right. exact Hin.
    + destruct (obj_get ("/" ++ name) (tpl_paths (tag_template ("/" ++ n) r tpl))) eqn:E; auto.
      exfalso.
      assert (Hk' : known (tag_template ("/" ++ n) r tpl) name)
        by (unfold known; congruence).
      apply tag_template_known in Hk'. now apply Hk'.
Qed.

(** Either every requested endpoint has a template, or there is a first one
    that has none. *)
Lemma known_or_first_unknown tpl (entries : list (string * string)) :
  (forall n p, In (n, p) entries -> known tpl n)
  \/ exists before name path after,
       entries = (before ++ (name, path) :: after)%list
       /\ (forall n p, In (n, p) before -> known tpl n)
       /\ obj_get ("/" ++ name) (tpl_paths tpl) = None.
Proof.
  induction entries as [|[n p] entries IH].
  - left. intros n p [].
  - destruct (obj_get ("/" ++ n) (tpl_paths tpl)) eqn:E.
    + destruct IH as [IH | [before [name [path [after [Heq [Hk Hun]]]]]]].
      * left. intros n' p' [Heq|Hin]; [|eauto].
        inversion Heq; subst. unfold known. congruence.
      * right. exists ((n, p) :: before), name, path, after.
        split; [now rewrite Heq|]. split; [|exact Hun].
        intros n' p' [Heq'|Hin]; [|eauto].
        inversion Heq'; subst. unfold known. congruence.
    + right. exists [], n, p, entries. repeat split; auto. intros ? ? [].
Qed.

Lemma write_definitions_run defs : forall ds sw tpl st,
  forEachM write_definition defs (with_spec (with_definitions (Some ds) sw) tpl st)
  = (Normal tt,
     with_spec (with_definitions (Some (stored_definitions defs ds)) sw) tpl st).
Proof.
  induction defs as [|[k v] defs IH]; intros ds sw tpl st.
  - reflexivity.
  - rewrite forEachM_cons.
    change (write_definition (k, v) (with_spec (with_definitions (Some ds) sw) tpl st))
      with (Normal tt,
            with_spec (with_definitions (Some (obj_set k (JObj v) ds)) sw) tpl st).
    cbv iota beta. now rewrite IH.
Qed.

(** [importOAuth] past its guard and its two checks: the loop over the
    requested endpoints, then the loop over the template's definitions. *)
Lemma importOAuth_checks_pass r paths0 st sw :
  length_is_0 paths0 = false ->
  swagger st = Some sw ->
  existingPaths (or_empty (paths sw)) paths0 = [] ->
  existingDefinitions (or_empty (definitions sw)) (oauthSwagger st) = [] ->
  importOAuth r paths0 st
  = match forEachM (addTokenPath r) (token_entries paths0)
            (with_spec (with_paths (Some (or_empty (paths sw)))
                          (with_definitions (Some (or_empty (definitions sw))) sw))
                       (oauthSwagger st) st) with
    | (Normal _, st1) =>
        forEachM write_definition (tpl_definitions (oauthSwagger st1)) st1
    | (Throw e, st1) => (Throw e, st1)
    end.
Proof.
  intros Hlen Hsw Hp Hd.
  unfold importOAuth. rewrite Hlen.
  unfold bind at 1. unfold the_swagger. rewrite Hsw.
  unfold bind at 1. unfold update_swagger at 1. unfold modify at 1. rewrite Hsw.
  unfold bind at 1. unfold update_swagger at 1. unfold modify at 1.
  cbn [swagger set_swagger].
  rewrite Hp.
  unfold bind at 1. unfold gets at 1. cbn [oauthSwagger set_swagger].
  rewrite Hd.
  unfold bind at 1.
  match goal with
  | |- match forEachM _ _ ?s1 with _ => _ end = match forEachM _ _ ?s2 with _ => _ end =>
      change s1 with s2
  end.
  destruct (forEachM (addTokenPath r) (token_entries paths0) _) as [[[]|e] st1];
    reflexivity.
Qed.

Lemma importOAuth_all_known r paths0 st sw :
  length_is_0 paths0 = false ->
  swagger st = Some sw ->
  existingPaths (or_empty (paths sw)) paths0 = [] ->
  existingDefinitions (or_empty (definitions sw)) (oauthSwagger st) = [] ->
  (forall n p, In (n, p) (token_entries paths0) -> known (oauthSwagger st) n) ->
  importOAuth r paths0 st
  = (Normal tt,
     with_spec
       (with_definitions
          (Some (stored_definitions (tpl_definitions (oauthSwagger st))
                                    (or_empty (definitions sw))))
          (with_paths
             (Some (stored_templates (token_entries paths0) (or_empty (paths sw))))
             sw))
       (tagged_templates r (token_entries paths0) (oauthSwagger st)) st).
Proof.
  intros Hlen Hsw Hp Hd Hk.
  rewrite (importOAuth_checks_pass r paths0 st sw Hlen Hsw Hp Hd).
  rewrite addTokenPaths_known by exact Hk.
  cbn [oauthSwagger with_spec]. rewrite tagged_templates_definitions.
  etransitivity.
  - apply (write_definitions_run (tpl_definitions (oauthSwagger st))
             (or_empty (definitions sw))
             (with_paths (Some (stored_templates (token_entries paths0)
                                                 (or_empty (paths sw)))) sw)).
  - reflexivity.
Qed.

Lemma importOAuth_first_unknown r paths0 st sw before name path after :
  length_is_0 paths0 = false ->
  swagger st = Some sw ->
  existingPaths (or_empty (paths sw)) paths0 = [] ->
  existingDefinitions (or_empty (definitions sw)) (oauthSwagger st) = [] ->
  token_entries paths0 = (before ++ (name, path) :: after)%list ->
  (forall n p, In (n, p) before -> known (oauthSwagger st) n) ->
  obj_get ("/" ++ name) (tpl_paths (oauthSwagger st)) = None ->
  importOAuth r paths0 st
  = (Throw (Error (invalid_key_message name (oauthSwagger st))),
     with_spec
       (with_definitions (Some (or_empty (definitions sw)))
          (with_paths
             (Some (obj_set path (OwnItem JUndefined)
                            (stored_templates before (or_empty (paths sw)))))
             sw))
       (tagged_templates r before (oauthSwagger st)) st).
Proof.
  intros Hlen Hsw Hp Hd Hsplit Hk Hun.
  rewrite (importOAuth_checks_pass r paths0 st sw Hlen Hsw Hp Hd).
  rewrite Hsplit.
  rewrite addTokenPaths_unknown by assumption.
  reflexivity.
Qed.

(** What the stores hold after a successful injection. *)

Lemma stored_templates_miss entries : forall ps path,
  ~ In path (map snd entries) ->
  obj_get path (stored_templates entries ps) = obj_get path ps.
Proof.
  unfold stored_templates.
  induction entries as [|[n p] entries IH]; simpl; intros ps path Hnot; auto.
  rewrite IH by tauto. apply obj_get_set_neq. intros ->. tauto.
Qed.


Lemma obj_set_idem {V} k (v : V) o : obj_set k v (obj_set k v o) = obj_set k v o.
Proof.
  induction o as [|[k' v'] o IH]; simpl.
  - now rewrite String.eqb_refl.
  - destruct (String.eqb k k') eqn:E; simpl.
    + now rewrite String.eqb_refl.
    + now rewrite E, IH.
Qed.

Lemma tag_template_get_same k r tpl item0 :
  obj_get k (tpl_paths tpl) = Some item0 ->
  obj_get k (tpl_paths (tag_template k r tpl)) = Some (tagged r item0).
Proof.
  intros H. unfold tag_template. rewrite H. cbn [tpl_paths].
  apply obj_get_set_eq.
Qed.

Lemma tag_template_get_other k k' r tpl :
  k <> k' ->
  obj_get k (tpl_paths (tag_template k' r tpl)) = obj_get k (tpl_paths tpl).
Proof.
  intros Hne. unfold tag_template.
  destruct (obj_get k' (tpl_paths tpl)); cbn [tpl_paths]; auto.
  now apply obj_get_set_neq.
Qed.



Lemma stored_definitions_miss defs : forall ds k,
  ~ In k (obj_keys defs) ->
  obj_get k (stored_definitions defs ds) = obj_get k ds.
Proof.
  unfold stored_definitions, obj_keys.
  induction defs as [|[k0 v0] defs IH]; simpl; intros ds k Hnot; auto.
  rewrite IH by tauto. apply obj_get_set_neq. intros ->. tauto.
Qed.


(** A normal return means the guard was passed with a specification in place
    and both checks found nothing. *)
Lemma importOAuth_normal_inv r paths0 st st' :
  length_is_0 paths0 = false ->
  importOAuth r paths0 st = (Normal tt, st') ->
  exists sw,
    swagger st = Some sw
    /\ existingPaths (or_empty (paths sw)) paths0 = []
    /\ existingDefinitions (or_empty (definitions sw)) (oauthSwagger st) = [].
Proof.
  intros Hlen. unfold importOAuth. rewrite Hlen.
  unfold bind at 1. unfold the_swagger.
  destruct (swagger st) as [sw|] eqn:Hsw; [|discriminate].
  unfold bind at 1. unfold update_swagger at 1. unfold modify at 1. rewrite Hsw.
  unfold bind at 1. unfold update_swagger at 1. unfold modify at 1.
  cbn [swagger set_swagger].
  destruct (existingPaths (or_empty (paths sw)) paths0) eqn:Hp;
    [|unfold throw; discriminate].
  unfold bind at 1. unfold gets at 1. cbn [oauthSwagger set_swagger].
  destruct (existingDefinitions (or_empty (definitions sw)) (oauthSwagger st)) eqn:Hd;
    [|unfold throw; discriminate].
  intros _. exists sw. auto.
Qed.




(** The stored path item is the template's own object: when a second resource
    injects the same endpoint elsewhere, the first resource's path shows the
    second one's name. *)
Example template_item_is_shared :
  let st := Sample.state_of Sample.emptySwagger None in
  exists st1 st2,
    importOAuth "oauth2" (TPObject [("token", "/accesstoken")]) st = (Normal tt, st1)
    /\ importOAuth "partners" (TPObject [("token", "/partners/token")]) st1
       = (Normal tt, st2)
    /\ owner_of "/accesstoken" st1 = Some (JStr "oauth2")
    /\ owner_of "/accesstoken" st2 = Some (JStr "partners").
Proof.
  cbv zeta. eexists. eexists.
  split; [lazy; reflexivity|]. split; [lazy; reflexivity|]. split; reflexivity.
Qed.




(** C3 at a specification that already routes [/accesstoken] and already
    defines [token_response]: both checks compare the VALUES of the
    specification's objects with the requested names, find nothing, and the
    injection overwrites the path and the definition without any error. *)
Lemma importOAuth_collision_not_detected :
  let st := Sample.state_of Sample.occupiedSwagger None in
  let requested := TPObject [("token", "/accesstoken")] in
  exists st' sw',
    obj_get "/accesstoken" (or_empty (paths Sample.occupiedSwagger))
    = Some (OwnItem (JObj [("post", JObj [("operationId", JStr "legacyToken")])]))
    /\ obj_get "token_response" (or_empty (definitions Sample.occupiedSwagger))
       = Some (JObj [("type", JStr "string")])
    /\ existingPaths (or_empty (paths Sample.occupiedSwagger)) requested = []
    /\ existingDefinitions (or_empty (definitions Sample.occupiedSwagger))
                           Sample.template = []
    /\ importOAuth "oauth2" requested st = (Normal tt, st')
    /\ swagger st' = Some sw'
    /\ paths sw' = Some [("/accesstoken", TemplateItem "/token")]
    /\ definitions sw' = Some [("token_response", JObj [("type", JStr "object")])].
Proof.
  cbv zeta. eexists. eexists.
  repeat (split; [reflexivity|]).
  split; [lazy; reflexivity|]. repeat split.
Qed.

(** No specification with well-formed paths and definitions (objects, never
    strings) can make either check fire. *)
Lemma existingPaths_objects_only allPaths paths0 :
  (forall k it, In (k, it) allPaths ->
     forall s, strict_eq_str (item_value it) s = false) ->
  existingPaths allPaths paths0 = [].
Proof.
  intros Hobj. unfold existingPaths. apply filter_nil_iff. intros p _.
  unfold contains_str, searched_paths. apply existsb_false. intros v Hin.
  apply in_map_iff in Hin. destruct Hin as [it [<- Hin]].
  apply collection_values_In in Hin. destruct Hin as [->|Hin]; [reflexivity|].
  apply in_map_iff in Hin. destruct Hin as [[k it'] [<- Hin]].
  exact (Hobj k it' Hin p).
Qed.

Lemma existingDefinitions_objects_only allDefinitions tpl :
  (forall k v, In (k, v) allDefinitions -> forall s, strict_eq_str v s = false) ->
  existingDefinitions allDefinitions tpl = [].
Proof.
  intros Hobj. unfold existingDefinitions, filtered_definitions.
  apply filter_nil_iff. intros v Hin. apply existsb_false. intros s _.
  apply collection_values_In in Hin. destruct Hin as [->|Hin]; [reflexivity|].
  apply in_map_iff in Hin. destruct Hin as [[k v'] [<- Hin]].
  exact (Hobj k v' Hin s).
Qed.

(** An empty array of target paths returns at the guard, with the state
    untouched. *)
Lemma importOAuth_empty_array (r : string) (st : state) :
  importOAuth r (TPArray []) st = (Normal tt, st).
Proof. reflexivity. Qed.

(** C9 at the empty object [{}], the form the rest of the function works on:
    [paths.length] is [undefined], the guard is not taken, and the template's
    definitions are stored in the specification. *)
Lemma importOAuth_empty_object_not_noop :
  let st := Sample.state_of Sample.emptySwagger None in
  exists st' sw',
    token_entries (TPObject []) = []
    /\ importOAuth "oauth2" (TPObject []) st = (Normal tt, st')
    /\ swagger st' = Some sw'
    /\ definitions Sample.emptySwagger = Some []
    /\ definitions sw' = Some [("token_response", JObj [("type", JStr "object")])]
    /\ st' <> st.
Proof.
  cbv zeta. eexists. eexists.
  split; [reflexivity|]. split; [lazy; reflexivity|]. repeat split.
  intros H. apply (f_equal swagger) in H. discriminate H.
Qed.

(** ** Requirements that name an unregistered resource *)

Lemma same_but_calls_refl st : same_but_calls st st.
Proof. repeat split. Qed.

Lemma same_but_calls_trans st1 st2 st3 :
  same_but_calls st1 st2 -> same_but_calls st2 st3 -> same_but_calls st1 st3.
Proof.
  unfold same_but_calls. intros [A [B [C D]]] [A' [B' [C' D']]].
  repeat split; congruence.
Qed.

Lemma pushAuthenticate_registered acc n a st rm oauth scope :
  resourcesMap st = Some rm ->
  obj_get n rm = Some oauth ->
  prop_of a "scope" = Some scope ->
  exists st',
    pushAuthenticate acc (n, a) st
    = (Normal (acc ++ [AuthenticateStep n oauth scope])%list, st')
    /\ same_but_calls st st'.
Proof.
  intros Hrm Hget Hscope. unfold pushAuthenticate. run.
  rewrite Hrm, Hget, Hscope. eexists. split; [reflexivity|]. repeat split.
Qed.




(** ** Registry construction *)

Section Frames.
Context {A B : Type}.

Lemma keeps_ret (a : A) : keeps_volos (ret a).
Proof. intros st sw c st' Hsw H. inversion H; subst. eauto. Qed.

Lemma keeps_throw e : keeps_volos (@throw A e).
Proof. intros st sw c st' Hsw H. inversion H; subst. eauto. Qed.

Lemma keeps_lift (c0 : completion A) : keeps_volos (lift c0).
Proof. intros st sw c st' Hsw H. inversion H; subst. eauto. Qed.

Lemma keeps_gets (f : state -> A) : keeps_volos (gets f).
Proof. intros st sw c st' Hsw H. inversion H; subst. eauto. Qed.

Lemma keeps_bind (m : M A) (k : A -> M B) :
  keeps_volos m -> (forall a, keeps_volos (k a)) -> keeps_volos (bind m k).
Proof.
  intros Hm Hk st sw c st' Hsw H. unfold bind in H.
  destruct (m st) as [[a|e] st1] eqn:E.
  - destruct (Hm st sw _ _ Hsw E) as [sw1 [Hsw1 Hv1]].
    destruct (Hk a st1 sw1 _ _ Hsw1 H) as [sw' [Hsw' Hv']].
    exists sw'. split; [exact Hsw'|congruence].
  - inversion H; subst. exact (Hm st sw _ _ Hsw E).
Qed.
End Frames.

Lemma keeps_the_swagger p : keeps_volos (the_swagger p).
Proof.
  intros st sw c st' Hsw H. unfold the_swagger in H. rewrite Hsw in H.
  inversion H; subst. eauto.
Qed.

Lemma keeps_record_call c0 : keeps_volos (record_call c0).
Proof. intros st sw c st' Hsw H. inversion H; subst. simpl. eauto. Qed.

Lemma keeps_update_swagger f :
  (forall sw, x_volos_resources (f sw) = x_volos_resources sw) ->
  keeps_volos (update_swagger f).
Proof.
  intros Hf st sw c st' Hsw H. unfold update_swagger, modify in H.
  rewrite Hsw in H. inversion H; subst. simpl. eauto.
Qed.

Lemma keeps_forEachM {X} (f : X -> M unit) l :
  (forall x, keeps_volos (f x)) -> keeps_volos (forEachM f l).
Proof.
  intros Hf. induction l as [|x l IH]; simpl.
  - apply keeps_ret.
  - apply keeps_bind; auto.
Qed.

Lemma keeps_foldM {X A} (f : A -> X -> M A) l :
  (forall a x, keeps_volos (f a x)) -> forall a, keeps_volos (foldM f l a).
Proof.
  intros Hf. induction l as [|x l IH]; simpl; intros a.
  - apply keeps_ret.
  - apply keeps_bind; auto.
Qed.

Lemma keeps_addTokenPath r e : keeps_volos (addTokenPath r e).
Proof.
  destruct e as [name path]. unfold addTokenPath.
  apply keeps_bind; [apply keeps_gets|]. intros tpl.
  destruct (obj_get ("/" ++ name) (tpl_paths tpl)).
  - apply keeps_bind; [apply keeps_update_swagger; reflexivity|]. intros _.
    intros st sw c st' Hsw H. inversion H; subst. simpl. eauto.
  - apply keeps_bind; [apply keeps_update_swagger; reflexivity|]. intros _.
    apply keeps_throw.
Qed.

Lemma keeps_importOAuth r paths0 : keeps_volos (importOAuth r paths0).
Proof.
  unfold importOAuth. destruct (length_is_0 paths0); [apply keeps_ret|].
  apply keeps_bind; [apply keeps_the_swagger|]. intros sw0.
  apply keeps_bind; [apply keeps_update_swagger; reflexivity|]. intros _.
  apply keeps_bind; [apply keeps_update_swagger; reflexivity|]. intros _.
  destruct (existingPaths _ _); [|apply keeps_throw].
  apply keeps_bind; [apply keeps_gets|]. intros tpl.
  destruct (existingDefinitions _ _); [|apply keeps_throw].
  apply keeps_bind; [apply keeps_forEachM; intros; apply keeps_addTokenPath|].
  intros _. apply keeps_bind; [apply keeps_gets|]. intros tpl'.
  apply keeps_forEachM. intros x. apply keeps_update_swagger. reflexivity.
Qed.

Section Registry.
Variable require : string -> completion (serviceOptions -> completion resource).
Variable getHelperFunction : string -> jsval -> completion jsval.

Lemma keeps_createService services e :
  keeps_volos (createService require getHelperFunction "x-a127-services" services e).
Proof.
  destruct e as [n d]. unfold createService.
  apply keeps_bind; [apply keeps_record_call|]. intros _.
  apply keeps_bind; [apply keeps_lift|]. intros module.
  apply keeps_bind.
  - destruct (truthy (passwordCheck (options d))); [|apply keeps_ret].
    apply keeps_bind; [apply keeps_record_call|]. intros _.
    apply keeps_bind; [apply keeps_lift|]. intros h.
    apply keeps_bind; [|intros; apply keeps_ret].
    apply keeps_update_swagger. reflexivity.
  - intros opts.
    apply keeps_bind; [apply keeps_record_call|]. intros _.
    apply keeps_bind; [apply keeps_lift|]. intros service.
    apply keeps_bind; [|intros; apply keeps_ret].
    destruct (tokenPaths opts); [apply keeps_importOAuth | apply keeps_ret].
Qed.

(** What one declaration adds to the registry. *)
Lemma createService_registers key services n d st rm1 st1 :
  createService require getHelperFunction key services (n, d) st = (Normal rm1, st1) ->
  exists r,
    instance_of require getHelperFunction n d = Normal r
    /\ rm1 = obj_set n r services.
Proof.
  unfold createService, instance_of. run.
  destruct (require (provider d)) as [module|e]; [|discriminate].
  destruct (truthy (passwordCheck (options d))).
  - run. destruct (getHelperFunction _ _) as [h|e]; [|discriminate].
    run. destruct (module (with_passwordCheck h (options d))) as [r|e]; [|discriminate].
    destruct (tokenPaths (options d)) as [tp|].
    + match goal with
      | |- context [importOAuth n tp ?s] =>
          destruct (importOAuth n tp s) as [[[]|e] st2]; [|discriminate]
      end.
      intros H. inversion H; subst. eauto.
    + intros H. inversion H; subst. eauto.
  - run. destruct (module (options d)) as [r|e]; [|discriminate].
    destruct (tokenPaths (options d)) as [tp|].
    + match goal with
      | |- context [importOAuth n tp ?s] =>
          destruct (importOAuth n tp s) as [[[]|e] st2]; [|discriminate]
      end.
      intros H. inversion H; subst. eauto.
    + intros H. inversion H; subst. eauto.
Qed.

Lemma createServices_other_names key l : forall services st rm st' name,
  foldM (createService require getHelperFunction key) l services st = (Normal rm, st') ->
  ~ In name (obj_keys l) ->
  obj_get name rm = obj_get name services.
Proof.
  induction l as [|[n d] l IH]; intros services st rm st' name Hrun Hnot.
  - inversion Hrun; subst. reflexivity.
  - rewrite foldM_cons in Hrun.
    destruct (createService require getHelperFunction key services (n, d) st)
      as [[rm1|e] st1] eqn:E; [|discriminate].
    destruct (createService_registers _ _ _ _ _ _ _ E) as [r [_ ->]].
    simpl in Hnot.
    rewrite (IH _ _ _ _ name Hrun) by tauto.
    apply obj_get_set_neq. intros ->. tauto.
Qed.

Lemma createServices_declared key l : forall services st rm st' name d,
  foldM (createService require getHelperFunction key) l services st = (Normal rm, st') ->
  obj_wf l ->
  obj_get name l = Some d ->
  exists r,
    instance_of require getHelperFunction name d = Normal r
    /\ obj_get name rm = Some r.
Proof.
  induction l as [|[n d0] l IH]; intros services st rm st' name d Hrun Hwf Hget.
  - discriminate Hget.
  - rewrite foldM_cons in Hrun.
    destruct (createService require getHelperFunction key services (n, d0) st)
      as [[rm1|e] st1] eqn:E; [|discriminate].
    destruct (createService_registers _ _ _ _ _ _ _ E) as [r [Hinst ->]].
    inversion Hwf as [|? ? Hnotin Hwf']; subst.
    simpl in Hget. destruct (String.eqb name n) eqn:En.
    + apply String.eqb_eq in En. subst n. inversion Hget; subst d0.
      exists r. split; [exact Hinst|].
      rewrite (createServices_other_names _ _ _ _ _ _ name Hrun Hnotin).
      apply obj_get_set_eq.
    + exact (IH _ _ _ _ name d Hrun Hwf' Hget).
Qed.

(** C6, as the code has it: the keys are processed in the order of
    [SERVICES], every declaration is instantiated, and each one is stored
    under its name over whatever is there.  So when registry construction
    completes for a specification that declares [name] under both keys, the
    registry holds the instance built from the [x-volos-resources]
    declaration, the one processed last; the instance built from the
    [x-a127-services] declaration was created and then replaced, with no
    error. *)
Theorem createResources_last_declaration_wins (st st' : state) (sw : swaggerObject)
    (name : string) (first second : serviceDefinition) (rm : registry) :
  swagger st = Some sw ->
  obj_wf (or_empty (x_a127_services sw)) ->
  obj_wf (or_empty (x_volos_resources sw)) ->
  obj_get name (or_empty (x_a127_services sw)) = Some first ->
  obj_get name (or_empty (x_volos_resources sw)) = Some second ->
  createResources require getHelperFunction st = (Normal rm, st') ->
  exists r1 r2,
    instance_of require getHelperFunction name first = Normal r1
    /\ instance_of require getHelperFunction name second = Normal r2
    /\ obj_get name rm = Some r2.
Proof.
  intros Hsw Hwf1 Hwf2 Hfirst Hsecond Hrun.
  unfold createResources, SERVICES in Hrun.
  rewrite foldM_cons in Hrun.
  destruct (createServices require getHelperFunction [] "x-a127-services" st)
    as [[rm1|e] st1] eqn:E1; [|discriminate].
  rewrite foldM_cons in Hrun.
  destruct (createServices require getHelperFunction rm1 "x-volos-resources" st1)
    as [[rm2|e] st2] eqn:E2; [|discriminate].
  inversion Hrun; subst rm2 st2; clear Hrun.
  (* first key *)
  assert (Hk1 : exists sw1, swagger st1 = Some sw1
                            /\ x_volos_resources sw1 = x_volos_resources sw).
  { assert (Hkeep : keeps_volos
                      (createServices require getHelperFunction [] "x-a127-services")).
    { unfold createServices.
      apply keeps_bind; [apply keeps_the_swagger|]. intros sw0.
      apply keeps_foldM. intros; apply keeps_createService. }
    exact (Hkeep st sw _ _ Hsw E1). }
  destruct Hk1 as [sw1 [Hsw1 Hv1]].
  unfold createServices, bind, the_swagger in E1. rewrite Hsw in E1.
  change (swagger_services sw "x-a127-services") with (x_a127_services sw) in E1.
  destruct (createServices_declared _ _ _ _ _ _ name first E1 Hwf1 Hfirst)
    as [r1 [Hr1 _]].
  (* second key *)
  unfold createServices, bind, the_swagger in E2. rewrite Hsw1 in E2.
  change (swagger_services sw1 "x-volos-resources") with (x_volos_resources sw1) in E2.
  rewrite Hv1 in E2.
  destruct (createServices_declared _ _ _ _ _ _ name second E2 Hwf2 Hsecond)
    as [r2 [Hr2 Hget]].
  exists r1, r2. auto.
Qed.
End Registry.

Lemma createResources_last_declaration_wins_witness :
  exists r1 r2,
    instance_of Sample.require Sample.getHelperFunction "oauth2"
      {| provider := "volos-oauth-apigee"; options := Sample.plainOptions |} = Normal r1
    /\ instance_of Sample.require Sample.getHelperFunction "oauth2"
         {| provider := "volos-oauth-redis"; options := Sample.plainOptions |} = Normal r2
    /\ obj_get "oauth2"
         [("oauth2", Sample.oauth "volos-oauth-redis" Sample.plainOptions)] = Some r2.
Proof.
  eapply (createResources_last_declaration_wins Sample.require Sample.getHelperFunction
            (Sample.state_of Sample.twiceDeclared None) _
            Sample.twiceDeclared "oauth2").
  - reflexivity.
  - repeat constructor; simpl; tauto.
  - repeat constructor; simpl; tauto.
  - reflexivity.
  - reflexivity.
  - lazy. reflexivity.
Defined.

(** The name "oauth2" declared under both keys: construction completes, and
    the registry holds the instance of the [x-volos-resources] declaration,
    not the one of the [x-a127-services] declaration that was registered
    first. *)
Lemma createResources_first_declaration_shadowed :
  exists rm st' r,
    createResources Sample.require Sample.getHelperFunction
      (Sample.state_of Sample.twiceDeclared None) = (Normal rm, st')
    /\ obj_get "oauth2" rm = Some r
    /\ res_provider r = "volos-oauth-redis"
    /\ option_map provider (obj_get "oauth2" (or_empty (x_a127_services Sample.twiceDeclared)))
       = Some "volos-oauth-apigee"
    /\ calls st' = [CallRequire "volos-oauth-apigee"; CallCreate "volos-oauth-apigee";
                    CallRequire "volos-oauth-redis"; CallCreate "volos-oauth-redis"].
Proof.
  eexists. eexists. eexists.
  split; [lazy; reflexivity|]. repeat split.
Qed.

(** ** Loading the specification does not look at operations *)

Section OperationsFrame.
Context {A B : Type}.





End OperationsFrame.








Section Lazy.
Variable require : string -> completion (serviceOptions -> completion resource).
Variable getHelperFunction : string -> jsval -> completion jsval.



End Lazy.


(** The specification loads although operation 1 requires the undeclared
    resource "apikey"; the failure shows at the first request for it. *)
Example load_then_first_use :
  exists att st1 e st2,
    middleware Sample.require Sample.getHelperFunction (Some Sample.twiceDeclared)
      (Sample.state_of Sample.emptySwagger None) = (Normal att, st1)
    /\ mwFunction Sample.require Sample.getHelperFunction
         (Sample.request_for (Some 1) "Bearer good") st1 = (Throw e, st2)
    /\ e = cannot_read "connectMiddleware".
Proof.
  eexists. eexists. eexists. eexists.
  split; [lazy; reflexivity|]. split; [lazy; reflexivity|]. reflexivity.
Qed.

(** * Further properties of the module *)

(** ** One handler per oauth resource *)

Lemma not_key_get_None {V} k (o : list (string * V)) :
  ~ In k (obj_keys o) -> obj_get k o = None.
Proof.
  unfold obj_keys. induction o as [|[k' v] o IH]; simpl; intros H; auto.
  destruct (String.eqb k k') eqn:E.
  - apply String.eqb_eq in E. subst. tauto.
  - apply IH. tauto.
Qed.

Lemma get_Some_key {V} k (v : V) (o : list (string * V)) :
  obj_get k o = Some v -> In k (obj_keys o).
Proof.
  intros H. destruct (in_dec string_dec k (obj_keys o)) as [Hin|Hnot]; auto.
  rewrite (not_key_get_None k o Hnot) in H. discriminate.
Qed.

Lemma handlers_fold_get (rm : registry) :
  forall (acc : list (string * handler)) name,
    obj_wf rm ->
    obj_get name
      (fold_left
         (fun handlers (entry : string * resource) =>
            let '(name, resource0) := entry in
            if truthy (validGrantTypes resource0)
            then obj_set name (SwaggerSecurityHandler resource0) handlers
            else handlers)
         rm acc)
    = match obj_get name rm with
      | Some r =>
          if truthy (validGrantTypes r)
          then Some (SwaggerSecurityHandler r)
          else obj_get name acc
      | None => obj_get name acc
      end.
Proof.
  induction rm as [|[n r0] rm IH]; intros acc name Hwf; [reflexivity|].
  inversion Hwf as [|? ? Hnotin Hwf']; subst.
  simpl fold_left. rewrite IH by exact Hwf'. simpl obj_get.
  destruct (String.eqb name n) eqn:E.
  - apply String.eqb_eq in E. subst n.
    rewrite (not_key_get_None name rm Hnotin).
    destruct (truthy (validGrantTypes r0)); [apply obj_get_set_eq | reflexivity].
  - apply String.eqb_neq in E.
    destruct (truthy (validGrantTypes r0)); [|reflexivity].
    rewrite obj_get_set_neq by exact E. reflexivity.
Qed.

(** X1: in a registry whose names are distinct, a name has a security
    handler exactly when it is registered with a truthy [validGrantTypes], and
    the handler is the one built from that resource. *)
Theorem swaggerSecurityHandlers_exact (rm : registry) (name : string) :
  obj_wf rm ->
  obj_get name (swaggerSecurityHandlers (Some rm))
  = match obj_get name rm with
    | Some r =>
        if truthy (validGrantTypes r) then Some (SwaggerSecurityHandler r) else None
    | None => None
    end.
Proof.
  intros Hwf. unfold swaggerSecurityHandlers.
  rewrite handlers_fold_get by exact Hwf. reflexivity.
Qed.

Lemma swaggerSecurityHandlers_exact_witness :
  obj_get "oauth2" (swaggerSecurityHandlers (Some Sample.registry2))
  = Some (SwaggerSecurityHandler (Sample.oauth "volos-oauth-apigee" Sample.plainOptions))
  /\ obj_get "quota" (swaggerSecurityHandlers (Some Sample.registry2)) = None.
Proof.
  assert (Hwf : obj_wf Sample.registry2).
  { repeat constructor; simpl; intuition discriminate. }
  split.
  - exact (swaggerSecurityHandlers_exact Sample.registry2 "oauth2" Hwf).
  - exact (swaggerSecurityHandlers_exact Sample.registry2 "quota" Hwf).
Defined.

(** ** What a first resolution builds, and what it leaves alone *)

Lemma pushAuthenticate_same acc e st c st' :
  pushAuthenticate acc e st = (c, st') -> same_but_calls st st'.
Proof.
  destruct e as [n a]. unfold pushAuthenticate. run.
  destruct (resourcesMap st) as [rm|]; [|intros H; inversion H; apply same_but_calls_refl].
  destruct (obj_get n rm);
    [|destruct (inherited n); intros H; inversion H; apply same_but_calls_refl].
  destruct (prop_of a "scope"); intros H; inversion H; repeat split.
Qed.

Lemma pushAuthenticate_fold_same entries : forall acc st c st',
  foldM pushAuthenticate entries acc st = (c, st') -> same_but_calls st st'.
Proof.
  induction entries as [|e entries IH]; intros acc st c st' H.
  - inversion H. apply same_but_calls_refl.
  - rewrite foldM_cons in H.
    destruct (pushAuthenticate acc e st) as [[acc1|err] st1] eqn:E.
    + eapply same_but_calls_trans; [eapply pushAuthenticate_same; eauto|].
      eapply IH; eauto.
    + inversion H; subst. eapply pushAuthenticate_same; eauto.
Qed.

Lemma pushAuthenticate_fold_registered rm entries : forall acc st,
  resourcesMap st = Some rm ->
  (forall n a, In (n, a) entries ->
               obj_get n rm <> None /\ prop_of a "scope" <> None) ->
  exists steps st',
    foldM pushAuthenticate entries acc st = (Normal (acc ++ steps)%list, st')
    /\ Forall2 (step_for rm) entries steps.
Proof.
  induction entries as [|[n a] entries IH]; intros acc st Hrm Hok.
  - exists [], st. split; [now rewrite app_nil_r | constructor].
  - rewrite foldM_cons.
    destruct (Hok n a (or_introl eq_refl)) as [Hn Ha].
    destruct (obj_get n rm) as [oauth|] eqn:En; [|congruence].
    destruct (prop_of a "scope") as [scope|] eqn:Ea; [|congruence].
    destruct (pushAuthenticate_registered acc n a st rm oauth scope Hrm En Ea)
      as [st1 [Hstep Hsame]].
    rewrite Hstep.
    destruct (IH (acc ++ [AuthenticateStep n oauth scope])%list st1) as [steps [st' [Hrun Hall]]].
    + destruct Hsame as [_ [B _]]. congruence.
    + intros n' a' Hin. apply Hok. now right.
    + exists (AuthenticateStep n oauth scope :: steps), st'. split.
      * rewrite Hrun. now rewrite <- app_assoc.
      * constructor; [|exact Hall]. exists oauth, scope. auto.
Qed.

(** X2: the first resolution for an operation whose requirements all name
    registered resources builds one authenticate step per requirement, in the
    order of the mapping, each from the registered resource and the
    requirement's scope, followed by the step that attaches the registry; that
    chain is what the operation carries afterwards.  Without requirements the
    chain is the attaching step alone. *)
Theorem resolveAuthChain_builds (path : jsval) (r : opRef) (st : state)
    (authorizations : jsval) (rm : registry) :
  cached_chain (operations st r) = None ->
  authorizations_of (operations st r) path = Normal authorizations ->
  resourcesMap st = Some rm ->
  (forall n a, In (n, a) (requirements authorizations) ->
               obj_get n rm <> None /\ prop_of a "scope" <> None) ->
  exists steps st',
    resolveAuthChain path r st
    = (Normal (steps ++ [AddResourcesStep (Some rm)])%list, st')
    /\ Forall2 (step_for rm) (requirements authorizations) steps
    /\ cached_chain (operations st' r)
       = Some (steps ++ [AddResourcesStep (Some rm)])%list.
Proof.
  intros Hc Ha Hrm Hok.
  destruct (pushAuthenticate_fold_registered rm (requirements authorizations) [] st Hrm Hok)
    as [steps [st1 [Hrun Hall]]].
  assert (Hsame : same_but_calls st st1)
    by (eapply pushAuthenticate_fold_same; eauto).
  simpl app in Hrun.
  assert (Hres : exists st',
             resolveAuthChain path r st
             = (Normal (steps ++ [AddResourcesStep (Some rm)])%list, st')).
  { unfold resolveAuthChain. unfold bind at 1. unfold gets at 1. rewrite Hc.
    unfold bind at 1. unfold lift at 1. rewrite Ha.
    unfold bind at 1. unfold requirements in Hrun.
    destruct (truthy authorizations).
    - rewrite Hrun. unfold addResourcesToRequestMW. run.
      destruct Hsame as [_ [B _]]. rewrite B, Hrm. eexists. reflexivity.
    - simpl in Hrun. inversion Hrun; subst. unfold addResourcesToRequestMW. run.
      rewrite Hrm. eexists. reflexivity. }
  destruct Hres as [st' Hres].
  exists steps, st'. split; [exact Hres|]. split; [exact Hall|].
  eapply resolveAuthChain_caches; eauto.
Qed.

Lemma resolveAuthChain_builds_witness :
  (exists steps st',
     resolveAuthChain (JObj []) 0 Sample.state1
     = (Normal (steps ++ [AddResourcesStep (Some Sample.registry1)])%list, st')
     /\ Forall2 (step_for Sample.registry1) (requirements (JObj Sample.writeScope)) steps
     /\ cached_chain (operations st' 0)
        = Some (steps ++ [AddResourcesStep (Some Sample.registry1)])%list)
  /\ (exists st',
        requirements (JObj Sample.indexedScope) = []
        /\ resolveAuthChain (JObj []) 0
             (with_operations (fun _ => Sample.countOrders) Sample.state1)
           = (Normal [AddResourcesStep (Some Sample.registry1)], st')).
Proof.
  split.
  - apply (resolveAuthChain_builds (JObj []) 0 Sample.state1 (JObj Sample.writeScope)
             Sample.registry1); try reflexivity.
    intros n a [Heq|[]]. inversion Heq; subst. split; discriminate.
  - destruct (resolveAuthChain_builds (JObj []) 0
                (with_operations (fun _ => Sample.countOrders) Sample.state1)
                (JObj Sample.indexedScope) Sample.registry1 eq_refl eq_refl eq_refl)
      as [steps [st' [Hrun [Hsteps _]]]].
    + intros n a [].
    + change (requirements (JObj Sample.indexedScope))
        with (@nil (string * jsval)) in Hsteps.
      inversion Hsteps; subst steps.
      exists st'. split; [reflexivity | exact Hrun].
Defined.

(** X3: whatever its outcome, chain resolution for an operation leaves the
    specification, the registry and the template document as they were, leaves
    every other operation as it was, and keeps the operation's identifier and
    requirement declarations; when it throws, no operation at all is
    changed. *)
Theorem resolveAuthChain_frame (path : jsval) (r : opRef) (st st' : state)
    (c : completion chain) :
  resolveAuthChain path r st = (c, st') ->
  swagger st' = swagger st
  /\ resourcesMap st' = resourcesMap st
  /\ oauthSwagger st' = oauthSwagger st
  /\ (forall r', r' <> r -> operations st' r' = operations st r')
  /\ operationId (operations st' r) = operationId (operations st r)
  /\ op_a127_authorizations (operations st' r) = op_a127_authorizations (operations st r)
  /\ op_volos_authorizations (operations st' r) = op_volos_authorizations (operations st r)
  /\ (forall e, c = Throw e -> operations st' = operations st).
Proof.
  unfold resolveAuthChain. unfold bind at 1. unfold gets at 1.
  destruct (cached_chain (operations st r)) as [c0|].
  - intros H. inversion H; subst. repeat split.
  - unfold bind at 1. unfold lift at 1.
    destruct (authorizations_of (operations st r) path) as [a|e].
    + unfold bind at 1.
      destruct ((if truthy a then foldM pushAuthenticate (each_entries a) [] else ret []) st)
        as [[m|e] st1] eqn:Hm.
      * assert (Hsame : same_but_calls st st1).
        { destruct (truthy a).
          - eapply pushAuthenticate_fold_same; eauto.
          - inversion Hm. apply same_but_calls_refl. }
        destruct Hsame as [A [B [C D]]].
        unfold addResourcesToRequestMW. run.
        intros H. inversion H; subst; clear H. simpl.
        rewrite Nat.eqb_refl, D. repeat split; auto.
        -- intros r' Hne. apply Nat.eqb_neq in Hne. now rewrite Hne.
        -- intros e He. discriminate He.
      * assert (Hsame : same_but_calls st st1).
        { destruct (truthy a).
          - eapply pushAuthenticate_fold_same; eauto.
          - inversion Hm. }
        destruct Hsame as [A [B [C D]]].
        intros H. inversion H; subst. rewrite D. repeat split; auto.
    + intros H. inversion H; subst. repeat split.
Qed.

Lemma resolveAuthChain_frame_witness :
  exists c st',
    resolveAuthChain (JObj []) 0 Sample.state1 = (c, st')
    /\ swagger st' = swagger Sample.state1
    /\ resourcesMap st' = resourcesMap Sample.state1
    /\ operations st' 1 = operations Sample.state1 1.
Proof.
  destruct (resolveAuthChain (JObj []) 0 Sample.state1) as [c st'] eqn:Hrun.
  destruct (resolveAuthChain_frame (JObj []) 0 Sample.state1 st' c Hrun)
    as [A [B [_ [D _]]]].
  exists c, st'. split; [reflexivity|]. split; [exact A|]. split; [exact B|].
  apply D. discriminate.
Defined.

(** ** Flow-endpoint injection: the checks as coded, and the frame *)

Lemma importOAuth_path_check_fires r paths0 st sw e es :
  length_is_0 paths0 = false ->
  swagger st = Some sw ->
  existingPaths (or_empty (paths sw)) paths0 = e :: es ->
  importOAuth r paths0 st
  = (Throw (Error (paths_exist_message (e :: es))),
     with_spec (with_definitions (Some (or_empty (definitions sw)))
                  (with_paths (Some (or_empty (paths sw))) sw))
               (oauthSwagger st) st).
Proof.
  intros Hlen Hsw Hp. unfold importOAuth. rewrite Hlen.
  unfold bind at 1. unfold the_swagger. rewrite Hsw.
  unfold bind at 1. unfold update_swagger at 1. unfold modify at 1. rewrite Hsw.
  unfold bind at 1. unfold update_swagger at 1. unfold modify at 1.
  cbn [swagger set_swagger]. rewrite Hp. reflexivity.
Qed.

Lemma importOAuth_definition_check_fires r paths0 st sw e es :
  length_is_0 paths0 = false ->
  swagger st = Some sw ->
  existingPaths (or_empty (paths sw)) paths0 = [] ->
  existingDefinitions (or_empty (definitions sw)) (oauthSwagger st) = e :: es ->
  importOAuth r paths0 st
  = (Throw (Error (definitions_exist_message (e :: es))),
     with_spec (with_definitions (Some (or_empty (definitions sw)))
                  (with_paths (Some (or_empty (paths sw))) sw))
               (oauthSwagger st) st).
Proof.
  intros Hlen Hsw Hp Hd. unfold importOAuth. rewrite Hlen.
  unfold bind at 1. unfold the_swagger. rewrite Hsw.
  unfold bind at 1. unfold update_swagger at 1. unfold modify at 1. rewrite Hsw.
  unfold bind at 1. unfold update_swagger at 1. unfold modify at 1.
  cbn [swagger set_swagger]. rewrite Hp.
  unfold bind at 1. unfold gets at 1. cbn [oauthSwagger set_swagger].
  rewrite Hd. reflexivity.
Qed.

(** X5: when one of the two checks, as coded, finds something (a VALUE of
    [swagger.paths] equal to a requested target, or a VALUE of
    [swagger.definitions] equal to a template definition name), the injection
    throws the corresponding error, the path check first, listing what it
    found; nothing was stored: paths and definitions hold the entries they
    held (an absent one has become empty) and the template document is
    untouched. *)
Theorem importOAuth_check_fires (r : string) (paths0 : tokenPathsValue)
    (st : state) (sw : swaggerObject) :
  length_is_0 paths0 = false ->
  swagger st = Some sw ->
  (existingPaths (or_empty (paths sw)) paths0 <> []
   \/ existingDefinitions (or_empty (definitions sw)) (oauthSwagger st) <> []) ->
  exists st' sw',
    importOAuth r paths0 st
    = (Throw (Error
         match existingPaths (or_empty (paths sw)) paths0 with
         | [] => definitions_exist_message
                   (existingDefinitions (or_empty (definitions sw)) (oauthSwagger st))
         | found => paths_exist_message found
         end), st')
    /\ swagger st' = Some sw'
    /\ paths sw' = Some (or_empty (paths sw))
    /\ definitions sw' = Some (or_empty (definitions sw))
    /\ oauthSwagger st' = oauthSwagger st.
Proof.
  intros Hlen Hsw Hfound.
  destruct (existingPaths (or_empty (paths sw)) paths0) as [|e es] eqn:Hp.
  - destruct (existingDefinitions (or_empty (definitions sw)) (oauthSwagger st))
      as [|e es] eqn:Hd; [destruct Hfound; congruence|].
    eexists. eexists. split.
    + apply (importOAuth_definition_check_fires r paths0 st sw e es); assumption.
    + repeat split.
  - eexists. eexists. split.
    + apply (importOAuth_path_check_fires r paths0 st sw e es); assumption.
    + repeat split.
Qed.

Lemma importOAuth_check_fires_witness :
  exists st' sw',
    importOAuth "oauth2" (TPObject [("token", "/accesstoken")])
      (Sample.state_of Sample.aliasSwagger None)
    = (Throw (Error "Paths /accesstoken already exist. Cannot insert OAuth."), st')
    /\ swagger st' = Some sw'
    /\ paths sw' = Some [("/alias", OwnItem (JStr "/accesstoken"))]
    /\ definitions sw' = Some []
    /\ oauthSwagger st' = Sample.template.
Proof.
  apply (importOAuth_check_fires "oauth2" (TPObject [("token", "/accesstoken")])
           (Sample.state_of Sample.aliasSwagger None) Sample.aliasSwagger);
    try reflexivity.
  left. discriminate.
Defined.

(** Paths with a numeric [length] of their own are searched by index: with
    [length: 0] the alias of "/accesstoken" is not found, and the injection
    goes ahead. *)
Example array_like_paths_hide_an_alias :
  targets_among_values (or_empty (paths Sample.indexedSwagger))
    (TPObject [("token", "/accesstoken")]) = ["/accesstoken"]
  /\ existingPaths (or_empty (paths Sample.indexedSwagger))
       (TPObject [("token", "/accesstoken")]) = []
  /\ fst (importOAuth "oauth2" (TPObject [("token", "/accesstoken")])
            (Sample.state_of Sample.indexedSwagger None)) = Normal tt.
Proof. repeat split. Qed.

Lemma indexed_from_values {V} (l : list V) : forall i, map snd (indexed_from i l) = l.
Proof. induction l as [|x l IH]; intros i; simpl; [|rewrite IH]; reflexivity. Qed.

Lemma token_entries_values paths0 : map snd (token_entries paths0) = token_values paths0.
Proof. destruct paths0; simpl; [apply indexed_from_values | reflexivity]. Qed.



Lemma importOAuth_without_swagger r paths0 st :
  swagger st = None ->
  snd (importOAuth r paths0 st) = st.
Proof.
  intros Hsw. unfold importOAuth.
  destruct (length_is_0 paths0); [reflexivity|].
  unfold bind, the_swagger. now rewrite Hsw.
Qed.

Lemma importOAuth_leaves (r : string) (paths0 : tokenPathsValue)
    (st st' : state) (sw : swaggerObject) (c : completion unit) :
  swagger st = Some sw ->
  importOAuth r paths0 st = (c, st') ->
  resourcesMap st' = resourcesMap st
  /\ operations st' = operations st
  /\ calls st' = calls st
  /\ tpl_definitions (oauthSwagger st') = tpl_definitions (oauthSwagger st)
  /\ obj_keys (tpl_paths (oauthSwagger st')) = obj_keys (tpl_paths (oauthSwagger st))
  /\ exists sw',
       swagger st' = Some sw'
       /\ x_a127_services sw' = x_a127_services sw
       /\ x_volos_resources sw' = x_volos_resources sw
       /\ (forall k, ~ In k (token_values paths0) ->
             obj_get k (or_empty (paths sw')) = obj_get k (or_empty (paths sw)))
       /\ (forall k, ~ In k (obj_keys (tpl_definitions (oauthSwagger st))) ->
             obj_get k (or_empty (definitions sw'))
             = obj_get k (or_empty (definitions sw))).
Proof.
  intros Hsw Hrun.
  destruct (length_is_0 paths0) eqn:Hlen.
  { unfold importOAuth in Hrun. rewrite Hlen in Hrun. inversion Hrun; subst.
    repeat split. exists sw. repeat split; auto. }
  destruct (existingPaths (or_empty (paths sw)) paths0) as [|e es] eqn:Hp.
  2:{ rewrite (importOAuth_path_check_fires r paths0 st sw e es Hlen Hsw Hp) in Hrun.
      inversion Hrun; subst. repeat split. eexists. split; [reflexivity|].
      repeat split; auto. }
  destruct (existingDefinitions (or_empty (definitions sw)) (oauthSwagger st))
    as [|e es] eqn:Hd.
  2:{ rewrite (importOAuth_definition_check_fires r paths0 st sw e es Hlen Hsw Hp Hd)
        in Hrun.
      inversion Hrun; subst. repeat split. eexists. split; [reflexivity|].
      repeat split; auto. }
  destruct (known_or_first_unknown (oauthSwagger st) (token_entries paths0))
    as [Hk | [before [name [path [after [Hsplit [Hk Hun]]]]]]].
  - rewrite (importOAuth_all_known r paths0 st sw Hlen Hsw Hp Hd Hk) in Hrun.
    inversion Hrun; subst. cbn [resourcesMap operations calls oauthSwagger with_spec].
    split; [reflexivity|]. split; [reflexivity|]. split; [reflexivity|].
    split; [apply tagged_templates_definitions|].
    split; [apply tagged_templates_keys|].
    eexists. split; [reflexivity|].
    cbn [x_a127_services x_volos_resources paths definitions with_definitions
         with_paths or_empty].
    split; [reflexivity|]. split; [reflexivity|]. split.
    + intros k Hnot. apply stored_templates_miss.
      now rewrite token_entries_values.
    + intros k Hnot. now apply stored_definitions_miss.
  - rewrite (importOAuth_first_unknown r paths0 st sw before name path after
               Hlen Hsw Hp Hd Hsplit Hk Hun) in Hrun.
    inversion Hrun; subst. cbn [resourcesMap operations calls oauthSwagger with_spec].
    split; [reflexivity|]. split; [reflexivity|]. split; [reflexivity|].
    split; [apply tagged_templates_definitions|].
    split; [apply tagged_templates_keys|].
    eexists. split; [reflexivity|].
    cbn [x_a127_services x_volos_resources paths definitions with_definitions
         with_paths or_empty].
    split; [reflexivity|]. split; [reflexivity|]. split; [|reflexivity].
    intros k Hnot. rewrite <- token_entries_values, Hsplit in Hnot.
    rewrite map_app in Hnot. simpl in Hnot.
    rewrite obj_get_set_neq
      by (intros ->; apply Hnot; apply in_or_app; right; now left).
    apply stored_templates_miss.
    intros Hin. apply Hnot. apply in_or_app. now left.
Qed.

(** X4: whatever its outcome, an injection leaves the registry, the
    operations and the record of outside calls as they were; a specification
    stays in place with its service declarations; every path that is not a
    requested target and every definition whose name is not one of the
    template's keeps its value; and the template document keeps its
    definitions and the names of its path items. *)
Theorem importOAuth_frame (r : string) (paths0 : tokenPathsValue)
    (st st' : state) (sw : swaggerObject) (c : completion unit) :
  swagger st = Some sw ->
  importOAuth r paths0 st = (c, st') ->
  resourcesMap st' = resourcesMap st
  /\ operations st' = operations st
  /\ calls st' = calls st
  /\ tpl_definitions (oauthSwagger st') = tpl_definitions (oauthSwagger st)
  /\ obj_keys (tpl_paths (oauthSwagger st')) = obj_keys (tpl_paths (oauthSwagger st))
  /\ exists sw',
       swagger st' = Some sw'
       /\ x_a127_services sw' = x_a127_services sw
       /\ x_volos_resources sw' = x_volos_resources sw
       /\ (forall k, ~ In k (token_values paths0) ->
             obj_get k (or_empty (paths sw')) = obj_get k (or_empty (paths sw)))
       /\ (forall k, ~ In k (obj_keys (tpl_definitions (oauthSwagger st))) ->
             obj_get k (or_empty (definitions sw'))
             = obj_get k (or_empty (definitions sw))).
Proof.
  intros Hsw Hrun. exact (importOAuth_leaves r paths0 st st' sw c Hsw Hrun).
Qed.

Lemma importOAuth_frame_witness :
  exists c st' sw',
    importOAuth "oauth2" (TPObject [("token", "/token")])
      (Sample.state_of Sample.occupiedSwagger (Some Sample.registry1)) = (c, st')
    /\ resourcesMap st' = Some Sample.registry1
    /\ swagger st' = Some sw'
    /\ obj_get "/accesstoken" (or_empty (paths sw'))
       = obj_get "/accesstoken" (or_empty (paths Sample.occupiedSwagger)).
Proof.
  destruct (importOAuth "oauth2" (TPObject [("token", "/token")])
              (Sample.state_of Sample.occupiedSwagger (Some Sample.registry1)))
    as [c st'] eqn:Hrun.
  destruct (importOAuth_frame "oauth2" (TPObject [("token", "/token")])
              (Sample.state_of Sample.occupiedSwagger (Some Sample.registry1)) st'
              Sample.occupiedSwagger c eq_refl Hrun)
    as [A [_ [_ [_ [_ [sw' [Hsw' [_ [_ [Hpaths _]]]]]]]]]].
  exists c, st', sw'. split; [reflexivity|]. split; [exact A|]. split; [exact Hsw'|].
  apply Hpaths. simpl. intros [H|[]]. discriminate H.
Defined.

(** ** Registry construction: names, calls, and a failed load *)

Section Preserved.
Context {X : Type} (proj : state -> X).

Lemma preserves_ret {A} (a : A) : preserves proj (ret a).
Proof. intros st c st' H. now inversion H. Qed.

Lemma preserves_throw {A} e : preserves proj (@throw A e).
Proof. intros st c st' H. now inversion H. Qed.

Lemma preserves_lift {A} (c0 : completion A) : preserves proj (lift c0).
Proof. intros st c st' H. now inversion H. Qed.

Lemma preserves_gets {A} (f : state -> A) : preserves proj (gets f).
Proof. intros st c st' H. now inversion H. Qed.

Lemma preserves_the_swagger p : preserves proj (the_swagger p).
Proof.
  intros st c st' H. unfold the_swagger in H.
  destruct (swagger st); now inversion H.
Qed.

Lemma preserves_bind {A B} (m : M A) (k : A -> M B) :
  preserves proj m -> (forall a, preserves proj (k a)) -> preserves proj (bind m k).
Proof.
  intros Hm Hk st c st' H. unfold bind in H.
  destruct (m st) as [[a|e] st1] eqn:E.
  - rewrite (Hk a _ _ _ H). exact (Hm _ _ _ E).
  - inversion H; subst. exact (Hm _ _ _ E).
Qed.

Lemma preserves_foldM {Y A} (f : A -> Y -> M A) l :
  (forall a x, preserves proj (f a x)) -> forall a, preserves proj (foldM f l a).
Proof.
  intros Hf. induction l as [|x l IH]; simpl; intros a.
  - apply preserves_ret.
  - apply preserves_bind; auto.
Qed.
End Preserved.

Lemma importOAuth_keeps_rest r paths0 st c st' :
  importOAuth r paths0 st = (c, st') ->
  resourcesMap st' = resourcesMap st
  /\ operations st' = operations st
  /\ calls st' = calls st
  /\ has_swagger st' = has_swagger st.
Proof.
  intros H. destruct (swagger st) as [sw|] eqn:Hsw.
  - destruct (importOAuth_leaves r paths0 st st' sw c Hsw H)
      as [A [B [C [_ [_ [sw' [Hsw' _]]]]]]].
    unfold has_swagger. rewrite Hsw, Hsw'. auto.
  - pose proof (importOAuth_without_swagger r paths0 st Hsw) as Hst.
    rewrite H in Hst. simpl in Hst. subst st'. auto.
Qed.

Lemma update_swagger_keeps_rest f st c st' :
  update_swagger f st = (c, st') ->
  resourcesMap st' = resourcesMap st
  /\ calls st' = calls st
  /\ has_swagger st' = has_swagger st.
Proof.
  unfold update_swagger, modify, has_swagger. intros H. inversion H; subst.
  destruct (swagger st) eqn:E; simpl; rewrite ?E; auto.
Qed.

Section Logs.
Context {A B : Type}.

Lemma logs_ret (a : A) : logs [] (ret a).
Proof. intros st a' st' H. inversion H. now rewrite app_nil_r. Qed.

Lemma logs_lift (c : completion A) : logs [] (lift c).
Proof. intros st a' st' H. inversion H. now rewrite app_nil_r. Qed.

Lemma logs_bind cs1 cs2 (m : M A) (k : A -> M B) :
  logs cs1 m -> (forall a, logs cs2 (k a)) -> logs (cs1 ++ cs2) (bind m k).
Proof.
  intros Hm Hk st b st' H. unfold bind in H.
  destruct (m st) as [[a|e] st1] eqn:E; [|discriminate].
  rewrite (Hk a _ _ _ H), (Hm _ _ _ E). now rewrite app_assoc.
Qed.
End Logs.

Lemma logs_record_call c : logs [c] (record_call c).
Proof. intros st a st' H. inversion H. reflexivity. Qed.

Lemma logs_update_swagger f : logs [] (update_swagger f).
Proof.
  intros st a st' H. destruct (update_swagger_keeps_rest f st _ st' H) as [_ [C _]].
  now rewrite C, app_nil_r.
Qed.

Lemma logs_importOAuth r paths0 : logs [] (importOAuth r paths0).
Proof.
  intros st a st' H. destruct (importOAuth_keeps_rest r paths0 st _ st' H) as [_ [_ [C _]]].
  now rewrite C, app_nil_r.
Qed.

Lemma logs_foldM {Y A} (cs : Y -> list call) (f : A -> Y -> M A) l :
  (forall a x, logs (cs x) (f a x)) -> forall a, logs (flat_map cs l) (foldM f l a).
Proof.
  intros Hf. induction l as [|x l IH]; simpl; intros a.
  - apply logs_ret.
  - apply logs_bind; auto.
Qed.

Lemma declared_providers_eq sw sw' :
  x_a127_services sw' = x_a127_services sw ->
  x_volos_resources sw' = x_volos_resources sw ->
  declared_providers sw' = declared_providers sw.
Proof.
  intros H1 H2. unfold declared_providers, SERVICES. cbn [map].
  change (swagger_services sw' "x-a127-services") with (x_a127_services sw').
  change (swagger_services sw "x-a127-services") with (x_a127_services sw).
  change (swagger_services sw' "x-volos-resources") with (x_volos_resources sw').
  change (swagger_services sw "x-volos-resources") with (x_volos_resources sw).
  now rewrite H1, H2.
Qed.

Lemma names_after_set n (d d' : serviceDefinition) defs :
  obj_get n defs = Some d ->
  provider d' = provider d ->
  map (fun e : string * serviceDefinition => (fst e, provider (snd e)))
      (obj_set n d' defs)
  = map (fun e : string * serviceDefinition => (fst e, provider (snd e))) defs.
Proof.
  intros Hget Hp. induction defs as [|[k v] defs IH]; [discriminate|].
  simpl in *. destruct (String.eqb n k) eqn:E.
  - apply String.eqb_eq in E. inversion Hget. subst. simpl. now rewrite Hp.
  - simpl. now rewrite IH.
Qed.

(** Writing the options of a declaration back keeps its name and provider. *)
Lemma store_options_declared key n o sw :
  declared_providers (store_options key n o sw) = declared_providers sw.
Proof.
  assert (Hupd : forall l : option (list (string * serviceDefinition)),
             option_map (map (fun e : string * serviceDefinition =>
                                (fst e, provider (snd e))))
               match l with
               | Some defs =>
                   match obj_get n defs with
                   | Some d =>
                       Some (obj_set n {| provider := provider d; options := o |} defs)
                   | None => Some defs
                   end
               | None => None
               end
             = option_map (map (fun e : string * serviceDefinition =>
                                  (fst e, provider (snd e)))) l).
  { intros [defs|]; [|reflexivity].
    destruct (obj_get n defs) as [d|] eqn:E; [|reflexivity].
    simpl. f_equal. now apply (names_after_set n d). }
  unfold store_options.
  destruct (String.eqb key "x-a127-services").
  - unfold declared_providers, SERVICES. cbn [map].
    unfold swagger_services. cbn [String.eqb Ascii.eqb Bool.eqb
      x_a127_services x_volos_resources].
    now rewrite Hupd.
  - destruct (String.eqb key "x-volos-resources"); [|reflexivity].
    unfold declared_providers, SERVICES. cbn [map].
    unfold swagger_services. cbn [String.eqb Ascii.eqb Bool.eqb
      x_a127_services x_volos_resources].
    now rewrite Hupd.
Qed.

Section Declared.
Context {A B : Type}.

Lemma declared_preserved (m : M A) : preserves swagger m -> keeps_declared m.
Proof.
  intros Hm st sw c st' Hsw H. exists sw. split; [|reflexivity].
  now rewrite (Hm _ _ _ H).
Qed.

Lemma declared_bind (m : M A) (k : A -> M B) :
  keeps_declared m -> (forall a, keeps_declared (k a)) -> keeps_declared (bind m k).
Proof.
  intros Hm Hk st sw c st' Hsw H. unfold bind in H.
  destruct (m st) as [[a|e] st1] eqn:E.
  - destruct (Hm st sw _ _ Hsw E) as [sw1 [Hsw1 Hv1]].
    destruct (Hk a st1 sw1 _ _ Hsw1 H) as [sw' [Hsw' Hv']].
    exists sw'. split; [exact Hsw'|congruence].
  - inversion H; subst. exact (Hm st sw _ _ Hsw E).
Qed.
End Declared.

Lemma declared_foldM {Y A} (f : A -> Y -> M A) l :
  (forall a x, keeps_declared (f a x)) -> forall a, keeps_declared (foldM f l a).
Proof.
  intros Hf. induction l as [|x l IH]; simpl; intros a.
  - apply declared_preserved, preserves_ret.
  - apply declared_bind; auto.
Qed.

Lemma preserves_record_call c0 : preserves swagger (record_call c0).
Proof. intros st c st' H. now inversion H. Qed.

Lemma declared_importOAuth r paths0 : keeps_declared (importOAuth r paths0).
Proof.
  intros st sw c st' Hsw H.
  destruct (importOAuth_leaves r paths0 st st' sw c Hsw H)
    as [_ [_ [_ [_ [_ [sw' [Hsw' [H1 [H2 _]]]]]]]]].
  exists sw'. split; [exact Hsw'|]. now apply declared_providers_eq.
Qed.

Section RegistryFacts.
Variable require : string -> completion (serviceOptions -> completion resource).
Variable getHelperFunction : string -> jsval -> completion jsval.

Lemma declared_createResources :
  keeps_declared (createResources require getHelperFunction).
Proof.
  unfold createResources. apply declared_foldM. intros services key.
  unfold createServices.
  apply declared_bind; [apply declared_preserved, preserves_the_swagger|]. intros sw.
  apply declared_foldM. intros acc [n d]. unfold createService.
  apply declared_bind; [apply declared_preserved, preserves_record_call|]. intros _.
  apply declared_bind; [apply declared_preserved, preserves_lift|]. intros module.
  apply declared_bind.
  - destruct (truthy (passwordCheck (options d)));
      [|apply declared_preserved, preserves_ret].
    apply declared_bind; [apply declared_preserved, preserves_record_call|]. intros _.
    apply declared_bind; [apply declared_preserved, preserves_lift|]. intros h.
    apply declared_bind; [|intros; apply declared_preserved, preserves_ret].
    intros st sw0 c st' Hsw H. unfold update_swagger, modify in H.
    rewrite Hsw in H. inversion H; subst. simpl.
    eexists. split; [reflexivity|]. apply store_options_declared.
  - intros opts.
    apply declared_bind; [apply declared_preserved, preserves_record_call|]. intros _.
    apply declared_bind; [apply declared_preserved, preserves_lift|]. intros service.
    apply declared_bind; [|intros; apply declared_preserved, preserves_ret].
    destruct (tokenPaths opts);
      [apply declared_importOAuth | apply declared_preserved, preserves_ret].
Qed.

(** For a declaration that asks for neither, nothing is written into the
    specification. *)
Lemma createService_plain key acc e :
  plain_declaration e = true ->
  preserves swagger (createService require getHelperFunction key acc e).
Proof.
  destruct e as [n d]. unfold plain_declaration. cbn [snd]. intros Hplain.
  apply andb_true_iff in Hplain. destruct Hplain as [Ht Htp].
  apply negb_true_iff in Ht.
  destruct (tokenPaths (options d)) eqn:Etp; [discriminate|].
  intros st c st' H. unfold createService in H. rewrite Ht in H.
  unfold bind, record_call, modify, lift, ret in H.
  destruct (require (provider d)) as [module|e0]; [|now inversion H].
  destruct (module (options d)) as [service|e0]; [|now inversion H].
  rewrite Etp in H. now inversion H.
Qed.

Lemma createServices_plain key l : forall acc,
  forallb plain_declaration l = true ->
  preserves swagger (foldM (createService require getHelperFunction key) l acc).
Proof.
  induction l as [|e l IH]; intros acc Hall.
  - apply preserves_ret.
  - simpl in Hall. apply andb_true_iff in Hall. destruct Hall as [He Hl].
    simpl. apply preserves_bind; [now apply createService_plain|].
    intros a. now apply IH.
Qed.

Lemma createResources_plain sw st c st' :
  swagger st = Some sw ->
  plain_declarations sw = true ->
  createResources require getHelperFunction st = (c, st') ->
  swagger st' = Some sw.
Proof.
  intros Hsw Hplain. unfold plain_declarations, SERVICES in Hplain.
  cbn [forallb] in Hplain.
  apply andb_true_iff in Hplain. destruct Hplain as [H1 Hplain].
  apply andb_true_iff in Hplain. destruct Hplain as [H2 _].
  assert (Hstep : forall key acc st0 c0 st1,
             forallb plain_declaration (or_empty (swagger_services sw key)) = true ->
             swagger st0 = Some sw ->
             createServices require getHelperFunction acc key st0 = (c0, st1) ->
             swagger st1 = Some sw).
  { intros key acc st0 c0 st1 Hall Hsw0 H.
    unfold createServices, bind, the_swagger in H. rewrite Hsw0 in H.
    rewrite (createServices_plain key _ acc Hall _ _ _ H). exact Hsw0. }
  unfold createResources, SERVICES. rewrite foldM_cons.
  destruct (createServices require getHelperFunction [] "x-a127-services" st)
    as [[rm1|e1] st1] eqn:E1.
  - pose proof (Hstep "x-a127-services" [] st _ st1 H1 Hsw E1) as Hsw1.
    rewrite foldM_cons.
    destruct (createServices require getHelperFunction rm1 "x-volos-resources" st1)
      as [[rm2|e2] st2] eqn:E2; intros H;
      pose proof (Hstep "x-volos-resources" rm1 st1 _ st2 H2 Hsw1 E2) as Hsw2;
      inversion H; subst; exact Hsw2.
  - intros H. pose proof (Hstep "x-a127-services" [] st _ st1 H1 Hsw E1) as Hsw1.
    inversion H; subst. exact Hsw1.
Qed.

Lemma preserves_createResources {X} (proj : state -> X) :
  (forall c, preserves proj (record_call c)) ->
  (forall f, preserves proj (update_swagger f)) ->
  (forall r p, preserves proj (importOAuth r p)) ->
  preserves proj (createResources require getHelperFunction).
Proof.
  intros Hcall Hupd Himp. unfold createResources.
  apply preserves_foldM. intros services key. unfold createServices.
  apply preserves_bind; [apply preserves_the_swagger|]. intros sw.
  apply preserves_foldM. intros acc [n d]. unfold createService.
  apply preserves_bind; [apply Hcall|]. intros _.
  apply preserves_bind; [apply preserves_lift|]. intros module.
  apply preserves_bind.
  - destruct (truthy (passwordCheck (options d))); [|apply preserves_ret].
    apply preserves_bind; [apply Hcall|]. intros _.
    apply preserves_bind; [apply preserves_lift|]. intros h.
    apply preserves_bind; [apply Hupd|]. intros _. apply preserves_ret.
  - intros opts.
    apply preserves_bind; [apply Hcall|]. intros _.
    apply preserves_bind; [apply preserves_lift|]. intros service.
    apply preserves_bind; [|intros; apply preserves_ret].
    destruct (tokenPaths opts); [apply Himp | apply preserves_ret].
Qed.

Lemma createResources_keeps_resourcesMap :
  preserves resourcesMap (createResources require getHelperFunction).
Proof.
  apply preserves_createResources.
  - intros c st c0 st' H. now inversion H.
  - intros f st c st' H. now destruct (update_swagger_keeps_rest f st c st' H).
  - intros r p st c st' H. now destruct (importOAuth_keeps_rest r p st c st' H).
Qed.

Lemma createResources_keeps_has_swagger :
  preserves has_swagger (createResources require getHelperFunction).
Proof.
  apply preserves_createResources.
  - intros c st c0 st' H. now inversion H.
  - intros f st c st' H.
    now destruct (update_swagger_keeps_rest f st c st' H) as [_ [_ ?]].
  - intros r p st c st' H.
    now destruct (importOAuth_keeps_rest r p st c st' H) as [_ [_ [_ ?]]].
Qed.

(** X8: [setSwagger] installs the specification before it builds the
    registry.  When building throws, the state is the one the interrupted
    build left from the NEW specification: the specification installed
    declares the names and providers of the new one, and is the new one
    itself when no declaration asks for a password check or token paths (the
    build then writes nothing into it); [resourcesMap] is what it was before.
    Since the middleware loads lazily only while no specification is
    installed, every later request with an operation goes straight to chain
    resolution: the load is not tried again. *)
Theorem setSwagger_failed_load (swaggerObject0 : swaggerObject) (st st' : state)
    (e : js_error) :
  setSwagger require getHelperFunction (Some swaggerObject0) st = (Throw e, st') ->
  createResources require getHelperFunction (set_swagger (Some swaggerObject0) st)
  = (Throw e, st')
  /\ (exists sw',
        swagger st' = Some sw'
        /\ declared_providers sw' = declared_providers swaggerObject0
        /\ (plain_declarations swaggerObject0 = true -> sw' = swaggerObject0))
  /\ has_swagger st' = true
  /\ resourcesMap st' = resourcesMap st
  /\ (forall req rs r,
        req_swagger req = Some rs -> rs_operation rs = Some r ->
        mwFunction require getHelperFunction req st' = ifAuthenticated req st').
Proof.
  unfold setSwagger. unfold bind at 1. unfold modify at 1.
  unfold bind at 1.
  destruct (createResources require getHelperFunction
              (set_swagger (Some swaggerObject0) st)) as [[rm|e0] st1] eqn:E;
    [unfold modify; discriminate|].
  intros H. inversion H; subst e0 st1; clear H.
  pose proof (createResources_keeps_has_swagger _ _ _ E) as Hhas.
  pose proof (createResources_keeps_resourcesMap _ _ _ E) as Hrm.
  destruct (declared_createResources (set_swagger (Some swaggerObject0) st)
              swaggerObject0 _ _ eq_refl E) as [sw' [Hsw' Hdecl]].
  simpl in Hhas, Hrm. split; [reflexivity|]. split.
  { exists sw'. split; [exact Hsw'|]. split; [exact Hdecl|].
    intros Hplain.
    pose proof (createResources_plain swaggerObject0
                  (set_swagger (Some swaggerObject0) st) _ _ eq_refl Hplain E) as Hsame.
    congruence. }
  split; [exact Hhas|]. split; [exact Hrm|].
  intros req rs r Hreq Hop. unfold mwFunction. rewrite Hreq, Hop.
  unfold bind at 1. unfold gets at 1. now rewrite Hsw'.
Qed.
End RegistryFacts.

Lemma setSwagger_failed_load_witness :
  swagger Sample.freshState = None
  /\ exists e st',
       setSwagger Sample.brokenRequire Sample.getHelperFunction
         (Some Sample.twiceDeclared) Sample.freshState = (Throw e, st')
       /\ swagger st' = Some Sample.twiceDeclared
       /\ resourcesMap st' = None
       /\ mwFunction Sample.brokenRequire Sample.getHelperFunction
            (Sample.request_for (Some 0) "Bearer good") st'
          = ifAuthenticated (Sample.request_for (Some 0) "Bearer good") st'.
Proof.
  split; [reflexivity|].
  destruct (setSwagger Sample.brokenRequire Sample.getHelperFunction
              (Some Sample.twiceDeclared) Sample.freshState)
    as [c st'] eqn:Hrun.
  assert (Hc : exists e, c = Throw e).
  { apply (f_equal fst) in Hrun. lazy in Hrun. subst c. eexists. reflexivity. }
  destruct Hc as [e ->].
  destruct (setSwagger_failed_load Sample.brokenRequire Sample.getHelperFunction
              Sample.twiceDeclared _ st' e Hrun)
    as [_ [[sw' [Hsw' [_ Hplain]]] [_ [B C]]]].
  exists e, st'. split; [reflexivity|].
  split; [rewrite Hsw'; f_equal; exact (Hplain eq_refl)|]. split; [exact B|].
  eapply C; reflexivity.
Defined.

Lemma logs_eq {A} cs cs' (m : M A) : logs cs m -> cs = cs' -> logs cs' m.
Proof. intros H <-. exact H. Qed.

Section RegistryContents.
Variable require : string -> completion (serviceOptions -> completion resource).
Variable getHelperFunction : string -> jsval -> completion jsval.

Lemma createResources_two_loops st sw rm st' :
  swagger st = Some sw ->
  createResources require getHelperFunction st = (Normal rm, st') ->
  exists rm1 st1,
    foldM (createService require getHelperFunction "x-a127-services")
          (or_empty (x_a127_services sw)) [] st = (Normal rm1, st1)
    /\ foldM (createService require getHelperFunction "x-volos-resources")
             (or_empty (x_volos_resources sw)) rm1 st1 = (Normal rm, st').
Proof.
  intros Hsw Hrun. unfold createResources, SERVICES in Hrun.
  rewrite foldM_cons in Hrun.
  destruct (createServices require getHelperFunction [] "x-a127-services" st)
    as [[rm1|e] st1] eqn:E1; [|discriminate].
  rewrite foldM_cons in Hrun.
  destruct (createServices require getHelperFunction rm1 "x-volos-resources" st1)
    as [[rm2|e] st2] eqn:E2; [|discriminate].
  inversion Hrun; subst rm2 st2; clear Hrun.
  assert (Hkeep : keeps_volos
                    (createServices require getHelperFunction [] "x-a127-services")).
  { unfold createServices.
    apply keeps_bind; [apply keeps_the_swagger|]. intros sw0.
    apply keeps_foldM. intros; apply keeps_createService. }
  destruct (Hkeep st sw _ _ Hsw E1) as [sw1 [Hsw1 Hv1]].
  unfold createServices, bind, the_swagger in E1. rewrite Hsw in E1.
  change (swagger_services sw "x-a127-services") with (x_a127_services sw) in E1.
  unfold createServices, bind, the_swagger in E2. rewrite Hsw1 in E2.
  change (swagger_services sw1 "x-volos-resources") with (x_volos_resources sw1) in E2.
  rewrite Hv1 in E2.
  exists rm1, st1. auto.
Qed.

Lemma createServices_names key l : forall services st rm st',
  foldM (createService require getHelperFunction key) l services st = (Normal rm, st') ->
  forall name,
    obj_get name rm <> None
    <-> (obj_get name services <> None \/ In name (obj_keys l)).
Proof.
  induction l as [|[n d] l IH]; intros services st rm st' Hrun name.
  - inversion Hrun; subst. simpl. tauto.
  - rewrite foldM_cons in Hrun.
    destruct (createService require getHelperFunction key services (n, d) st)
      as [[rm1|e] st1] eqn:E; [|discriminate].
    destruct (createService_registers _ _ _ _ _ _ _ _ _ E) as [r [_ ->]].
    rewrite (IH _ _ _ _ Hrun name). simpl.
    destruct (string_dec name n) as [->|Hne].
    + rewrite obj_get_set_eq. split; [auto|]. intros _. left. discriminate.
    + rewrite obj_get_set_neq by exact Hne. split.
      * intros [H|H]; auto.
      * intros [H|[H|H]]; auto; congruence.
Qed.

(** X7: when registry construction completes, the registry holds a resource
    for exactly the names declared under [x-a127-services] or
    [x-volos-resources]. *)
Theorem createResources_names (st st' : state) (sw : swaggerObject) (rm : registry)
    (name : string) :
  swagger st = Some sw ->
  createResources require getHelperFunction st = (Normal rm, st') ->
  (obj_get name rm <> None
   <-> In name (obj_keys (or_empty (x_a127_services sw)))
       \/ In name (obj_keys (or_empty (x_volos_resources sw)))).
Proof.
  intros Hsw Hrun.
  destruct (createResources_two_loops st sw rm st' Hsw Hrun) as [rm1 [st1 [E1 E2]]].
  rewrite (createServices_names _ _ _ _ _ _ E2 name).
  rewrite (createServices_names _ _ _ _ _ _ E1 name).
  simpl. tauto.
Qed.

Lemma logs_createService key services n d :
  logs (calls_for (n, d))
       (createService require getHelperFunction key services (n, d)).
Proof.
  unfold createService, calls_for.
  apply (logs_eq
           ([CallRequire (provider d)]
            ++ ([]
                ++ ((if truthy (passwordCheck (options d))
                     then [CallGetHelperFunction (n ++ " passwordCheck")
                                                 (passwordCheck (options d))]
                     else [])
                    ++ ([CallCreate (provider d)] ++ ([] ++ ([] ++ []))))))%list).
  2:{ simpl. reflexivity. }
  apply logs_bind; [apply logs_record_call|]. intros _.
  apply logs_bind; [apply logs_lift|]. intros module.
  apply logs_bind.
  - destruct (truthy (passwordCheck (options d))); [|apply logs_ret].
    apply (logs_eq
             ([CallGetHelperFunction (n ++ " passwordCheck") (passwordCheck (options d))]
              ++ ([] ++ ([] ++ [])))%list); [|reflexivity].
    apply logs_bind; [apply logs_record_call|]. intros _.
    apply logs_bind; [apply logs_lift|]. intros h.
    apply logs_bind; [apply logs_update_swagger|]. intros _. apply logs_ret.
  - intros opts.
    apply logs_bind; [apply logs_record_call|]. intros _.
    apply logs_bind; [apply logs_lift|]. intros service.
    apply logs_bind; [|intros; apply logs_ret].
    destruct (tokenPaths opts); [apply logs_importOAuth | apply logs_ret].
Qed.

(** X9: when registry construction completes, it has required each declared
    provider and called its [create] exactly once, declaration by declaration,
    [x-a127-services] before [x-volos-resources], and has asked the helper
    resolver only for the declarations whose [passwordCheck] is truthy; a
    declaration that a later one shadows is instantiated all the same. *)
Theorem createResources_calls (st st' : state) (sw : swaggerObject) (rm : registry) :
  swagger st = Some sw ->
  createResources require getHelperFunction st = (Normal rm, st') ->
  calls st'
  = (calls st
     ++ flat_map calls_for (or_empty (x_a127_services sw))
     ++ flat_map calls_for (or_empty (x_volos_resources sw)))%list.
Proof.
  intros Hsw Hrun.
  destruct (createResources_two_loops st sw rm st' Hsw Hrun) as [rm1 [st1 [E1 E2]]].
  assert (Hlog : forall key l a,
             logs (flat_map calls_for l)
                  (foldM (createService require getHelperFunction key) l a)).
  { intros key l. apply logs_foldM. intros a [n d]. apply logs_createService. }
  rewrite (Hlog _ _ _ _ _ _ E2), (Hlog _ _ _ _ _ _ E1).
  now rewrite app_assoc.
Qed.
End RegistryContents.

Lemma createResources_names_witness :
  exists rm st',
    createResources Sample.require Sample.getHelperFunction
      (Sample.state_of Sample.twiceDeclared None) = (Normal rm, st')
    /\ obj_get "oauth2" rm <> None
    /\ ~ obj_get "quota" rm <> None.
Proof.
  destruct (createResources Sample.require Sample.getHelperFunction
              (Sample.state_of Sample.twiceDeclared None)) as [c st'] eqn:Hrun.
  assert (Hc : exists rm, c = Normal rm).
  { apply (f_equal fst) in Hrun. lazy in Hrun. subst c. eexists. reflexivity. }
  destruct Hc as [rm ->].
  exists rm, st'. split; [reflexivity|]. split.
  - apply (createResources_names Sample.require Sample.getHelperFunction
             (Sample.state_of Sample.twiceDeclared None) st'
             Sample.twiceDeclared rm "oauth2" eq_refl Hrun).
    left. simpl. auto.
  - intros H.
    apply (createResources_names Sample.require Sample.getHelperFunction
             (Sample.state_of Sample.twiceDeclared None) st'
             Sample.twiceDeclared rm "quota" eq_refl Hrun) in H.
    simpl in H. intuition discriminate.
Defined.

Lemma createResources_calls_witness :
  exists rm st',
    createResources Sample.require Sample.getHelperFunction
      (Sample.state_of Sample.twiceDeclared None) = (Normal rm, st')
    /\ calls st' = [CallRequire "volos-oauth-apigee"; CallCreate "volos-oauth-apigee";
                    CallRequire "volos-oauth-redis"; CallCreate "volos-oauth-redis"].
Proof.
  destruct (createResources Sample.require Sample.getHelperFunction
              (Sample.state_of Sample.twiceDeclared None)) as [c st'] eqn:Hrun.
  assert (Hc : exists rm, c = Normal rm).
  { apply (f_equal fst) in Hrun. lazy in Hrun. subst c. eexists. reflexivity. }
  destruct Hc as [rm ->].
  exists rm, st'. split; [reflexivity|].
  exact (createResources_calls Sample.require Sample.getHelperFunction
           (Sample.state_of Sample.twiceDeclared None) st'
           Sample.twiceDeclared rm eq_refl Hrun).
Defined.

(** ** Injecting the same endpoints again *)

Section FoldSet.
Context {E V : Type} (key : E -> string) (val : E -> V).

Lemma fold_set_miss es : forall o k,
  ~ In k (map key es) -> obj_get k (fold_set key val es o) = obj_get k o.
Proof.
  unfold fold_set. induction es as [|e es IH]; simpl; intros o k Hnot; auto.
  rewrite IH by tauto. apply obj_get_set_neq. intros ->. tauto.
Qed.

Lemma fold_set_hit es : forall o1 o2 k,
  In k (map key es) -> obj_get k (fold_set key val es o1) = obj_get k (fold_set key val es o2).
Proof.
  unfold fold_set. induction es as [|e es IH]; simpl; intros o1 o2 k Hin; [destruct Hin|].
  destruct (in_dec string_dec k (map key es)) as [Hin'|Hnot].
  - now apply IH.
  - destruct Hin as [Heq|Hin']; [|tauto]. subst k.
    fold (fold_set key val es (obj_set (key e) (val e) o1)).
    fold (fold_set key val es (obj_set (key e) (val e) o2)).
    rewrite !fold_set_miss by exact Hnot. now rewrite !obj_get_set_eq.
Qed.

Lemma fold_set_twice es o k :
  obj_get k (fold_set key val es (fold_set key val es o)) = obj_get k (fold_set key val es o).
Proof.
  destruct (in_dec string_dec k (map key es)) as [Hin|Hnot].
  - now apply fold_set_hit.
  - now rewrite fold_set_miss.
Qed.

Lemma fold_set_values es : forall o w,
  In w (obj_values (fold_set key val es o)) ->
  In w (obj_values o) \/ In w (map val es).
Proof.
  unfold fold_set. induction es as [|e es IH]; simpl; intros o w Hin; auto.
  destruct (IH _ _ Hin) as [H|H]; [|auto].
  destruct (In_values_set _ _ _ _ H); auto.
Qed.
Lemma fold_set_get es : forall o k,
  obj_get k (fold_set key val es o) = obj_get k o
  \/ exists e, In e es /\ obj_get k (fold_set key val es o) = Some (val e).
Proof.
  unfold fold_set. induction es as [|e es IH]; simpl; intros o k; [now left|].
  destruct (IH (obj_set (key e) (val e) o) k) as [H|[e' [Hin H]]].
  - destruct (string_dec k (key e)) as [->|Hne].
    + right. exists e. split; [now left|]. rewrite H. apply obj_get_set_eq.
    + left. rewrite H. now apply obj_get_set_neq.
  - right. exists e'. split; [now right | exact H].
Qed.

(** Setting properties none of which is called [length] leaves the way the
    object is walked as it was: the values met afterwards were met before,
    or are among those set. *)
Lemma collection_values_fold_set (number_of : V -> option Z) (undefined : V) es o v :
  ~ In "length" (map key es) ->
  In v (collection_values number_of undefined (fold_set key val es o)) ->
  In v (collection_values number_of undefined o) \/ In v (map val es).
Proof.
  intros Hlen. unfold collection_values, collection_entries, array_length.
  rewrite (fold_set_miss es o "length" Hlen).
  destruct (obj_get "length" o) as [l|]; [|apply fold_set_values].
  destruct (number_of l) as [n|]; [|apply fold_set_values].
  destruct (array_like n); [|apply fold_set_values].
  rewrite !map_map. cbn [snd]. intros Hin. apply in_map_iff in Hin.
  destruct Hin as [i [<- Hi]]. unfold at_index.
  destruct (fold_set_get es o (index_name i)) as [H|[e [He H]]]; rewrite H.
  - left. apply in_map_iff. exists i. split; [reflexivity | exact Hi].
  - right. now apply in_map.
Qed.
End FoldSet.

Lemma stored_templates_fold_set entries ps :
  stored_templates entries ps
  = fold_set snd (fun e : string * string => TemplateItem ("/" ++ fst e)) entries ps.
Proof. reflexivity. Qed.

Lemma stored_definitions_fold_set defs ds :
  stored_definitions defs ds
  = fold_set fst (fun e : string * obj => JObj (snd e)) defs ds.
Proof. reflexivity. Qed.

(** What the first injection stores are objects: unless it stored a property
    called [length], which changes the way the object is walked, a check that
    found nothing before finds nothing afterwards. *)
Lemma existingPaths_after_store entries ps paths0 :
  ~ In "length" (map snd entries) ->
  existingPaths ps paths0 = [] ->
  existingPaths (stored_templates entries ps) paths0 = [].
Proof.
  intros Hlen. unfold existingPaths. rewrite !filter_nil_iff. intros H t Ht.
  specialize (H t Ht). unfold contains_str, searched_paths in *.
  rewrite existsb_false in H. apply existsb_false. intros v Hin.
  apply in_map_iff in Hin. destruct Hin as [it [<- Hin]].
  rewrite stored_templates_fold_set in Hin.
  apply collection_values_fold_set in Hin; [|exact Hlen].
  destruct Hin as [Hin|Hin].
  - apply H. now apply in_map.
  - apply in_map_iff in Hin. destruct Hin as [e [<- _]]. reflexivity.
Qed.

Lemma existingDefinitions_after_store ds tpl tpl' :
  ~ In "length" (obj_keys (tpl_definitions tpl)) ->
  tpl_definitions tpl' = tpl_definitions tpl ->
  existingDefinitions ds tpl = [] ->
  existingDefinitions (stored_definitions (tpl_definitions tpl) ds) tpl' = [].
Proof.
  unfold existingDefinitions, filtered_definitions.
  intros Hlen ->. rewrite !filter_nil_iff. intros H v Hin.
  rewrite stored_definitions_fold_set in Hin.
  apply collection_values_fold_set in Hin; [|exact Hlen].
  destruct Hin as [Hin|Hin]; [now apply H|].
  apply in_map_iff in Hin. destruct Hin as [e [<- _]].
  apply existsb_false. reflexivity.
Qed.

Lemma tag_template_get_None k k' r tpl :
  obj_get k (tpl_paths tpl) = None ->
  obj_get k (tpl_paths (tag_template k' r tpl)) = None.
Proof.
  intros H. destruct (string_dec k k') as [->|Hne].
  - unfold tag_template. now rewrite H.
  - now rewrite tag_template_get_other.
Qed.

Lemma tagged_templates_get r entries : forall tpl k,
  obj_get k (tpl_paths (tagged_templates r entries tpl))
  = match obj_get k (tpl_paths tpl) with
    | Some item =>
        Some (if existsb (String.eqb k) (map (fun e => "/" ++ fst e) entries)
              then tagged r item else item)
    | None => None
    end.
Proof.
  induction entries as [|[n p] entries IH]; intros tpl k.
  - simpl. now destruct (obj_get k (tpl_paths tpl)).
  - change (tagged_templates r ((n, p) :: entries) tpl)
      with (tagged_templates r entries (tag_template ("/" ++ n) r tpl)).
    rewrite IH. simpl map. simpl existsb.
    destruct (obj_get k (tpl_paths tpl)) as [item|] eqn:E.
    + destruct (String.eqb k ("/" ++ n)) eqn:Ek.
      * apply String.eqb_eq in Ek. subst k.
        rewrite (tag_template_get_same _ r tpl item E). simpl.
        unfold tagged. rewrite obj_set_idem.
        now destruct (existsb _ _).
      * apply String.eqb_neq in Ek.
        rewrite tag_template_get_other by exact Ek. now rewrite E.
    + now rewrite tag_template_get_None.
Qed.

Lemma tagged_templates_twice r entries tpl k :
  obj_get k (tpl_paths (tagged_templates r entries (tagged_templates r entries tpl)))
  = obj_get k (tpl_paths (tagged_templates r entries tpl)).
Proof.
  rewrite (tagged_templates_get r entries (tagged_templates r entries tpl)).
  rewrite (tagged_templates_get r entries tpl).
  destruct (obj_get k (tpl_paths tpl)) as [item|]; [|reflexivity].
  destruct (existsb (String.eqb k) (map (fun e => "/" ++ fst e) entries)); [|reflexivity].
  unfold tagged. now rewrite obj_set_idem.
Qed.

Lemma tagged_templates_known r entries : forall tpl name,
  known (tagged_templates r entries tpl) name <-> known tpl name.
Proof.
  intros tpl name. unfold known. rewrite tagged_templates_get.
  destruct (obj_get ("/" ++ name) (tpl_paths tpl)); split; congruence.
Qed.

(** X10: the same injection made a second time returns normally - the checks
    do not see what the first one stored - and every path, every definition
    and every path item of the template document reads as it did after the
    first.  This is for an injection that stores nothing under the name
    [length]: no target path and no template definition is called so.  A
    property of that name changes the way underscore walks the object, and may
    uncover to the second injection's checks a value an array-like walk hid
    from the first's (see [second_injection_length_target]). *)
Theorem importOAuth_again (r : string) (paths0 : tokenPathsValue) (st st1 : state) :
  length_is_0 paths0 = false ->
  ~ In "length" (token_values paths0) ->
  ~ In "length" (obj_keys (tpl_definitions (oauthSwagger st))) ->
  importOAuth r paths0 st = (Normal tt, st1) ->
  exists st2 sw1 sw2,
    importOAuth r paths0 st1 = (Normal tt, st2)
    /\ swagger st1 = Some sw1
    /\ swagger st2 = Some sw2
    /\ (forall k, obj_get k (or_empty (paths sw2)) = obj_get k (or_empty (paths sw1)))
    /\ (forall k, obj_get k (or_empty (definitions sw2))
                  = obj_get k (or_empty (definitions sw1)))
    /\ (forall k, obj_get k (tpl_paths (oauthSwagger st2))
                  = obj_get k (tpl_paths (oauthSwagger st1))).
Proof.
  intros Hlen Htargets Hnames Hrun.
  destruct (importOAuth_normal_inv r paths0 st st1 Hlen Hrun) as [sw [Hsw [Hp Hd]]].
  destruct (known_or_first_unknown (oauthSwagger st) (token_entries paths0))
    as [Hk | [before [name [path [after [Hsplit [Hk Hun]]]]]]].
  2:{ rewrite (importOAuth_first_unknown r paths0 st sw before name path after
                 Hlen Hsw Hp Hd Hsplit Hk Hun) in Hrun. discriminate Hrun. }
  rewrite (importOAuth_all_known r paths0 st sw Hlen Hsw Hp Hd Hk) in Hrun.
  inversion Hrun; subst st1; clear Hrun.
  eexists. eexists. eexists. split.
  - apply importOAuth_all_known.
    + exact Hlen.
    + reflexivity.
    + cbn [or_empty paths with_definitions with_paths].
      apply existingPaths_after_store; [|exact Hp].
      now rewrite token_entries_values.
    + cbn [or_empty definitions with_definitions with_paths oauthSwagger with_spec].
      apply existingDefinitions_after_store; [exact Hnames| |exact Hd].
      apply tagged_templates_definitions.
    + cbn [oauthSwagger with_spec]. intros n p Hin.
      apply tagged_templates_known. eapply Hk; eauto.
  - split; [reflexivity|]. split; [reflexivity|].
    cbn [or_empty paths definitions with_definitions with_paths oauthSwagger with_spec].
    rewrite tagged_templates_definitions.
    split; [|split].
    + intros k. rewrite !stored_templates_fold_set. apply fold_set_twice.
    + intros k. rewrite !stored_definitions_fold_set. apply fold_set_twice.
    + intros k. apply tagged_templates_twice.
Qed.

Lemma importOAuth_again_witness :
  exists st1 st2 sw1 sw2,
    importOAuth "oauth2" (TPObject [("token", "/accesstoken")])
      (Sample.state_of Sample.occupiedSwagger None) = (Normal tt, st1)
    /\ importOAuth "oauth2" (TPObject [("token", "/accesstoken")]) st1 = (Normal tt, st2)
    /\ swagger st1 = Some sw1
    /\ swagger st2 = Some sw2
    /\ obj_get "/accesstoken" (or_empty (paths sw2))
       = obj_get "/accesstoken" (or_empty (paths sw1)).
Proof.
  destruct (importOAuth "oauth2" (TPObject [("token", "/accesstoken")])
              (Sample.state_of Sample.occupiedSwagger None)) as [c st1] eqn:Hrun.
  assert (Hc : c = Normal tt)
    by (apply (f_equal fst) in Hrun; lazy in Hrun; now symmetry).
  subst c.
  destruct (importOAuth_again "oauth2" (TPObject [("token", "/accesstoken")])
              (Sample.state_of Sample.occupiedSwagger None) st1 eq_refl)
    as [st2 [sw1 [sw2 [H2 [Hs1 [Hs2 [Hpaths _]]]]]]].
  - intros [H|[]]. discriminate H.
  - intros [H|[]]. discriminate H.
  - exact Hrun.
  - exists st1, st2, sw1, sw2. auto.
Defined.

(** Where a property of the paths does have a requested target as its
    value, hidden from the first injection by an array-like walk, storing a
    target called [length] uncovers it: the second injection throws. *)
Example second_injection_length_target :
  exists st1 st2,
    importOAuth "oauth2" (TPObject [("token", "/accesstoken"); ("authorize", "length")])
      (Sample.state_of Sample.indexedSwagger None) = (Normal tt, st1)
    /\ importOAuth "oauth2" (TPObject [("token", "/accesstoken"); ("authorize", "length")])
         st1
       = (Throw (Error "Paths /accesstoken already exist. Cannot insert OAuth."), st2).
Proof.
  eexists. eexists. split; [lazy; reflexivity|]. lazy. reflexivity.
Qed.

(** ** Cached chains and a reload *)

Section Reload.
Variable require : string -> completion (serviceOptions -> completion resource).
Variable getHelperFunction : string -> jsval -> completion jsval.

Lemma createResources_keeps_operations :
  preserves operations (createResources require getHelperFunction).
Proof.
  apply preserves_createResources.
  - intros c st c0 st' H. now inversion H.
  - intros f st c st' H. unfold update_swagger, modify in H. inversion H; subst.
    now destruct (swagger st).
  - intros r p st c st' H.
    now destruct (importOAuth_keeps_rest r p st c st' H) as [_ [? _]].
Qed.

Lemma setSwagger_keeps_operations swaggerObject0 :
  preserves operations (setSwagger require getHelperFunction swaggerObject0).
Proof.
  unfold setSwagger. destruct swaggerObject0 as [sw|]; [|apply preserves_ret].
  apply preserves_bind; [intros st c st' H; now inversion H|]. intros _.
  apply preserves_bind; [apply createResources_keeps_operations|]. intros rm.
  intros st c st' H. now inversion H.
Qed.

(** X11: [setSwagger] never clears a cached chain.  Once a resolution has
    returned a chain for an operation, resolving that operation after any
    later [setSwagger], whatever its argument and outcome, returns the same
    chain, with the resources of the registry it was built from, and changes
    nothing. *)
Theorem cached_chain_survives_setSwagger (path path' : jsval) (r : opRef)
    (st st1 st2 : state) (c : chain) (swaggerObject0 : option swaggerObject)
    (loaded : completion unit) :
  resolveAuthChain path r st = (Normal c, st1) ->
  setSwagger require getHelperFunction swaggerObject0 st1 = (loaded, st2) ->
  resolveAuthChain path' r st2 = (Normal c, st2).
Proof.
  intros Hres Hload.
  apply resolveAuthChain_hit.
  rewrite (setSwagger_keeps_operations swaggerObject0 _ _ _ Hload).
  eapply resolveAuthChain_caches; eauto.
Qed.
End Reload.

Lemma cached_chain_survives_setSwagger_witness :
  exists c st1 loaded st2,
    resolveAuthChain (JObj []) 0 Sample.state1 = (Normal c, st1)
    /\ setSwagger Sample.require Sample.getHelperFunction (Some Sample.twiceDeclared) st1
       = (loaded, st2)
    /\ resolveAuthChain (JObj []) 0 st2 = (Normal c, st2)
    /\ c = [AuthenticateStep "oauth2"
              (Sample.oauth "volos-oauth-apigee" Sample.plainOptions) (JStr "write");
            AddResourcesStep (Some Sample.registry1)].
Proof.
  destruct (resolveAuthChain (JObj []) 0 Sample.state1) as [cc st1] eqn:Hres.
  assert (Hc : cc = Normal [AuthenticateStep "oauth2"
                              (Sample.oauth "volos-oauth-apigee" Sample.plainOptions)
                              (JStr "write");
                            AddResourcesStep (Some Sample.registry1)])
    by (apply (f_equal fst) in Hres; lazy in Hres; now symmetry).
  subst cc.
  destruct (setSwagger Sample.require Sample.getHelperFunction
              (Some Sample.twiceDeclared) st1) as [loaded st2] eqn:Hload.
  eexists. exists st1, loaded, st2.
  split; [reflexivity|]. split; [exact Hload|]. split; [|reflexivity].
  exact (cached_chain_survives_setSwagger Sample.require Sample.getHelperFunction
           (JObj []) (JObj []) 0 Sample.state1 st1 st2 _ _ loaded Hres Hload).
Defined.

(** ** What loading writes into the service declarations *)

Lemma In_get_wf {V} k (v : V) (o : list (string * V)) :
  obj_wf o -> In (k, v) o -> obj_get k o = Some v.
Proof.
  unfold obj_wf, obj_keys. induction o as [|[k' v'] o IH]; simpl; intros Hwf Hin.
  - contradiction.
  - inversion Hwf as [|? ? Hnotin Hwf']; subst.
    destruct Hin as [Heq|Hin].
    + inversion Heq; subst. now rewrite String.eqb_refl.
    + destruct (String.eqb k k') eqn:E; [|auto].
      apply String.eqb_eq in E. subst k'.
      exfalso. apply Hnotin. now apply (in_map fst) in Hin.
Qed.

Lemma store_options_other key0 n0 o sw key n :
  key <> key0 \/ n <> n0 ->
  obj_get n (or_empty (swagger_services (store_options key0 n0 o sw) key))
  = obj_get n (or_empty (swagger_services sw key)).
Proof.
  intros Hne. unfold store_options, swagger_services.
  destruct (String.eqb key0 "x-a127-services") eqn:E0.
  - apply String.eqb_eq in E0. subst key0.
    destruct (String.eqb key "x-a127-services") eqn:E; [|reflexivity].
    apply String.eqb_eq in E. subst key.
    destruct Hne as [Hne|Hne]; [congruence|]. cbn [x_a127_services].
    destruct (x_a127_services sw) as [defs|]; [|reflexivity].
    destruct (obj_get n0 defs); [|reflexivity].
    simpl. now apply obj_get_set_neq.
  - destruct (String.eqb key0 "x-volos-resources") eqn:E1; [|reflexivity].
    apply String.eqb_eq in E1. subst key0.
    destruct (String.eqb key "x-a127-services") eqn:E; [reflexivity|].
    destruct (String.eqb key "x-volos-resources") eqn:E'; [|reflexivity].
    apply String.eqb_eq in E'. subst key.
    destruct Hne as [Hne|Hne]; [congruence|]. cbn [x_volos_resources].
    destruct (x_volos_resources sw) as [defs|]; [|reflexivity].
    destruct (obj_get n0 defs); [|reflexivity].
    simpl. now apply obj_get_set_neq.
Qed.

Lemma store_options_same key0 n0 o sw d :
  In key0 SERVICES ->
  obj_get n0 (or_empty (swagger_services sw key0)) = Some d ->
  obj_get n0 (or_empty (swagger_services (store_options key0 n0 o sw) key0))
  = Some {| provider := provider d; options := o |}.
Proof.
  intros [<-|[<-|[]]] Hget; unfold store_options, swagger_services in *; simpl in *.
  - destruct (x_a127_services sw) as [defs|]; [|discriminate].
    simpl in Hget. rewrite Hget. simpl. apply obj_get_set_eq.
  - destruct (x_volos_resources sw) as [defs|]; [|discriminate].
    simpl in Hget. rewrite Hget. simpl. apply obj_get_set_eq.
Qed.

Lemma importOAuth_keeps_declarations r paths0 st c st' key :
  importOAuth r paths0 st = (c, st') ->
  declarations key st' = declarations key st.
Proof.
  intros H. unfold declarations. destruct (swagger st) as [sw|] eqn:Hsw.
  - destruct (importOAuth_leaves r paths0 st st' sw c Hsw H)
      as [_ [_ [_ [_ [_ [sw' [Hsw' [A [B _]]]]]]]]].
    rewrite Hsw'. unfold swagger_services. now rewrite A, B.
  - pose proof (importOAuth_without_swagger r paths0 st Hsw) as Hst.
    rewrite H in Hst. simpl in Hst. subst st'. now rewrite Hsw.
Qed.

Section Declarations.
Variable require : string -> completion (serviceOptions -> completion resource).
Variable getHelperFunction : string -> jsval -> completion jsval.

Lemma createService_other_declarations key0 services n0 d0 key n :
  key <> key0 \/ n <> n0 ->
  preserves (fun st => obj_get n (declarations key st))
            (createService require getHelperFunction key0 services (n0, d0)).
Proof.
  intros Hne.
  assert (Hcall : forall c, preserves (fun st => obj_get n (declarations key st))
                                      (record_call c))
    by (intros c st c0 st' H; now inversion H).
  unfold createService.
  apply preserves_bind; [apply Hcall|]. intros _.
  apply preserves_bind; [apply preserves_lift|]. intros module.
  apply preserves_bind.
  - destruct (truthy (passwordCheck (options d0))); [|apply preserves_ret].
    apply preserves_bind; [apply Hcall|]. intros _.
    apply preserves_bind; [apply preserves_lift|]. intros h.
    apply preserves_bind; [|intros; apply preserves_ret].
    intros st c st' H. unfold update_swagger, modify in H. inversion H; subst.
    unfold declarations. destruct (swagger st) as [sw|] eqn:Hsw; simpl.
    + now apply store_options_other.
    + now rewrite Hsw.
  - intros opts.
    apply preserves_bind; [apply Hcall|]. intros _.
    apply preserves_bind; [apply preserves_lift|]. intros service.
    apply preserves_bind; [|intros; apply preserves_ret].
    destruct (tokenPaths opts); [|apply preserves_ret].
    intros st c st' H. now rewrite (importOAuth_keeps_declarations _ _ _ _ _ key H).
Qed.

Lemma createService_own_declaration key0 services n0 d0 st rm1 st1 :
  In key0 SERVICES ->
  obj_get n0 (declarations key0 st) = Some d0 ->
  createService require getHelperFunction key0 services (n0, d0) st = (Normal rm1, st1) ->
  exists d',
    resolved getHelperFunction n0 d0 = Normal d'
    /\ obj_get n0 (declarations key0 st1) = Some d'.
Proof.
  intros Hkey Hget. unfold createService, resolved.
  unfold bind at 1. unfold record_call at 1. unfold modify at 1.
  unfold bind at 1. unfold lift at 1.
  destruct (require (provider d0)) as [module|e]; [|discriminate].
  unfold bind at 1.
  destruct (truthy (passwordCheck (options d0))).
  - unfold bind at 1. unfold record_call at 1. unfold modify at 1.
    unfold bind at 1. unfold lift at 1.
    destruct (getHelperFunction (n0 ++ " passwordCheck") (passwordCheck (options d0)))
      as [h|e]; [|discriminate].
    unfold bind at 1. unfold update_swagger at 1. unfold modify at 1.
    unfold ret at 1.
    match goal with
    | |- context [bind (record_call _) _ ?s] => set (st0 := s)
    end.
    assert (Hst0 : obj_get n0 (declarations key0 st0)
                   = Some {| provider := provider d0;
                             options := with_passwordCheck h (options d0) |}).
    { subst st0. unfold declarations in *. simpl.
      destruct (swagger st) as [sw|]; [|discriminate Hget]. simpl.
      now apply store_options_same. }
    clearbody st0.
    unfold bind at 1. unfold record_call at 1. unfold modify at 1.
    unfold bind at 1. unfold lift at 1.
    destruct (module (with_passwordCheck h (options d0))) as [service|e]; [|discriminate].
    unfold bind at 1.
    match goal with
    | |- context [match ?m ?s with _ => _ end] =>
        destruct (m s) as [[[]|e] st2] eqn:E; [|discriminate]
    end.
    intros H. inversion H; subst. eexists. split; [reflexivity|].
    rewrite <- Hst0.
    cbn [tokenPaths with_passwordCheck] in E.
    destruct (tokenPaths (options d0)).
    + now rewrite (importOAuth_keeps_declarations _ _ _ _ _ key0 E).
    + now inversion E.
  - unfold ret at 1.
    unfold bind at 1. unfold record_call at 1. unfold modify at 1.
    unfold bind at 1. unfold lift at 1.
    destruct (module (options d0)) as [service|e]; [|discriminate].
    unfold bind at 1.
    match goal with
    | |- context [match ?m ?s with _ => _ end] =>
        destruct (m s) as [[[]|e] st2] eqn:E; [|discriminate]
    end.
    intros H. inversion H; subst. eexists. split; [reflexivity|].
    rewrite <- Hget.
    destruct (tokenPaths (options d0)).
    + now rewrite (importOAuth_keeps_declarations _ _ _ _ _ key0 E).
    + now inversion E.
Qed.
End Declarations.

Section LoadedDeclarations.
Variable require : string -> completion (serviceOptions -> completion resource).
Variable getHelperFunction : string -> jsval -> completion jsval.

Lemma createServices_declarations key0 l :
  In key0 SERVICES ->
  forall services st rm st',
    foldM (createService require getHelperFunction key0) l services st = (Normal rm, st') ->
    obj_wf l ->
    (forall n d, In (n, d) l -> obj_get n (declarations key0 st) = Some d) ->
    (forall n d, In (n, d) l ->
       exists d', resolved getHelperFunction n d = Normal d'
                  /\ obj_get n (declarations key0 st') = Some d')
    /\ (forall key n, key <> key0 \/ ~ In n (obj_keys l) ->
          obj_get n (declarations key st') = obj_get n (declarations key st)).
Proof.
  intros Hkey. induction l as [|[n0 d0] l IH]; intros services st rm st' Hrun Hwf Hsnap.
  - inversion Hrun; subst. split; [intros n d []|reflexivity].
  - rewrite foldM_cons in Hrun.
    destruct (createService require getHelperFunction key0 services (n0, d0) st)
      as [[rm1|e] st1] eqn:E; [|discriminate].
    inversion Hwf as [|? ? Hnotin Hwf']; subst.
    assert (Hother : forall key n, key <> key0 \/ n <> n0 ->
              obj_get n (declarations key st1) = obj_get n (declarations key st)).
    { intros key n Hne.
      exact (createService_other_declarations require getHelperFunction
               key0 services n0 d0 key n Hne _ _ _ E). }
    destruct (createService_own_declaration require getHelperFunction
                key0 services n0 d0 st rm1 st1 Hkey
                (Hsnap n0 d0 (or_introl eq_refl)) E) as [d0' [Hres0 Hget0]].
    destruct (IH rm1 st1 rm st' Hrun Hwf') as [IHown IHother].
    { intros n d Hin. rewrite Hother.
      - apply Hsnap. now right.
      - right. intros ->. apply Hnotin. now apply (in_map fst) in Hin. }
    split.
    + intros n d [Heq|Hin].
      * inversion Heq; subst n d. exists d0'. split; [exact Hres0|].
        rewrite IHother by (right; exact Hnotin). exact Hget0.
      * now apply IHown.
    + intros key n Hne. unfold obj_keys in *. simpl in Hne.
      rewrite IHother by tauto. apply Hother.
      destruct Hne as [Hne|Hne]; [now left | right; intros ->; tauto].
Qed.

(** X13: loading rewrites the specification it is given.  When registry
    construction completes, every declaration whose [passwordCheck] is truthy
    stands in the specification with that reference replaced by what the
    helper resolver returned for it, and every other declaration stands as it
    was. *)
Theorem createResources_rewrites_declarations (st st' : state) (sw : swaggerObject)
    (rm : registry) (key name : string) (d : serviceDefinition) :
  swagger st = Some sw ->
  obj_wf (or_empty (x_a127_services sw)) ->
  obj_wf (or_empty (x_volos_resources sw)) ->
  In key SERVICES ->
  In (name, d) (declarations key st) ->
  createResources require getHelperFunction st = (Normal rm, st') ->
  exists d',
    resolved getHelperFunction name d = Normal d'
    /\ obj_get name (declarations key st') = Some d'.
Proof.
  intros Hsw Hwf1 Hwf2 Hkey Hin Hrun.
  destruct (createResources_two_loops require getHelperFunction st sw rm st' Hsw Hrun)
    as [rm1 [st1 [E1 E2]]].
  assert (Hd1 : declarations "x-a127-services" st = or_empty (x_a127_services sw))
    by (unfold declarations; now rewrite Hsw).
  assert (Hd2 : declarations "x-volos-resources" st = or_empty (x_volos_resources sw))
    by (unfold declarations; now rewrite Hsw).
  destruct (createServices_declarations "x-a127-services" _ (or_introl eq_refl)
              _ _ _ _ E1 Hwf1) as [Own1 Other1].
  { intros n d0 Hin0. rewrite Hd1. now apply In_get_wf. }
  destruct (createServices_declarations "x-volos-resources" _
              (or_intror (or_introl eq_refl)) _ _ _ _ E2 Hwf2) as [Own2 Other2].
  { intros n d0 Hin0. rewrite Other1 by (left; discriminate).
    rewrite Hd2. now apply In_get_wf. }
  destruct Hkey as [<-|[<-|[]]].
  - rewrite Hd1 in Hin. destruct (Own1 name d Hin) as [d' [Hres Hget]].
    exists d'. split; [exact Hres|].
    rewrite Other2 by (left; discriminate). exact Hget.
  - rewrite Hd2 in Hin. exact (Own2 name d Hin).
Qed.
End LoadedDeclarations.

Lemma createResources_rewrites_declarations_witness :
  exists rm st',
    createResources Sample.require Sample.getHelperFunction
      (Sample.state_of Sample.checkedSwagger None) = (Normal rm, st')
    /\ exists d',
         resolved Sample.getHelperFunction "oauth2"
           {| provider := "volos-oauth-apigee"; options := Sample.checkedOptions |}
         = Normal d'
         /\ obj_get "oauth2" (declarations "x-a127-services" st') = Some d'
         /\ passwordCheck (options d') = JFunction "oauth2 passwordCheck" 3.
Proof.
  destruct (createResources Sample.require Sample.getHelperFunction
              (Sample.state_of Sample.checkedSwagger None)) as [c st'] eqn:Hrun.
  assert (Hc : exists rm, c = Normal rm).
  { apply (f_equal fst) in Hrun. lazy in Hrun. subst c. eexists. reflexivity. }
  destruct Hc as [rm ->].
  exists rm, st'. split; [reflexivity|].
  destruct (createResources_rewrites_declarations
              Sample.require Sample.getHelperFunction
              (Sample.state_of Sample.checkedSwagger None) st' Sample.checkedSwagger rm
              "x-a127-services" "oauth2"
              {| provider := "volos-oauth-apigee"; options := Sample.checkedOptions |}
              eq_refl) as [d' [Hres Hget]].
  - repeat constructor; simpl; tauto.
  - constructor.
  - left. reflexivity.
  - left. reflexivity.
  - exact Hrun.
  - exists d'. split; [exact Hres|]. split; [exact Hget|].
    lazy in Hres. inversion Hres. reflexivity.
Defined.

(** ** Resolution without a registry *)

(** X12: while [resourcesMap] is undefined (no specification loaded, or a
    load that failed), the first resolution for an operation whose chosen
    mapping gives [_.each] a pair to walk throws the engine's TypeError for
    reading the first walked name of [undefined], and changes nothing; when
    there is nothing to walk - no truthy mapping, an empty one, or an
    array-like one of length 0 - it builds and caches the chain whose only
    step attaches an undefined registry. *)
Theorem resolveAuthChain_without_registry (path : jsval) (r : opRef) (st : state)
    (authorizations : jsval) :
  cached_chain (operations st r) = None ->
  authorizations_of (operations st r) path = Normal authorizations ->
  resourcesMap st = None ->
  match requirements authorizations with
  | (name, _) :: _ =>
      resolveAuthChain path r st
      = (Throw (TypeError (ReadPropertyOf name JUndefined)), st)
  | [] =>
      exists st',
        resolveAuthChain path r st = (Normal [AddResourcesStep None], st')
        /\ cached_chain (operations st' r) = Some [AddResourcesStep None]
  end.
Proof.
  intros Hc Ha Hrm.
  assert (Hshape :
             resolveAuthChain path r st
             = bind (if truthy authorizations
                     then foldM pushAuthenticate (each_entries authorizations) []
                     else ret [])
                    (fun middlewares =>
                       last <- addResourcesToRequestMW ;;
                       (record_call (CallChain (length (middlewares ++ [last])%list)) ;;
                        modify (set_operation r
                                  (with_authChain (middlewares ++ [last])%list
                                                  (operations st r))) ;;
                        ret (middlewares ++ [last])%list))%js st).
  { unfold resolveAuthChain. unfold bind at 1. unfold gets at 1.
    rewrite Hc. unfold bind at 1. unfold lift at 1. now rewrite Ha. }
  unfold requirements.
  destruct (truthy authorizations).
  - destruct (each_entries authorizations) as [|[name a] rest] eqn:He.
    + assert (Hres : exists st',
                 resolveAuthChain path r st = (Normal [AddResourcesStep None], st')).
      { rewrite Hshape. unfold addResourcesToRequestMW. run. rewrite Hrm.
        eexists. reflexivity. }
      destruct Hres as [st' Hres]. exists st'. split; [exact Hres|].
      eapply resolveAuthChain_caches; eauto.
    + rewrite Hshape. unfold bind at 1. rewrite foldM_cons.
      unfold pushAuthenticate. run. now rewrite Hrm.
  - assert (Hres : exists st',
               resolveAuthChain path r st = (Normal [AddResourcesStep None], st')).
    { rewrite Hshape. unfold addResourcesToRequestMW. run. rewrite Hrm.
      eexists. reflexivity. }
    destruct Hres as [st' Hres]. exists st'. split; [exact Hres|].
    eapply resolveAuthChain_caches; eauto.
Qed.

Lemma resolveAuthChain_without_registry_witness :
  resolveAuthChain (JObj []) 0 (Sample.state_of Sample.emptySwagger None)
  = (Throw (TypeError (ReadPropertyOf "oauth2" JUndefined)),
     Sample.state_of Sample.emptySwagger None)
  /\ (exists st',
        resolveAuthChain (JObj []) 0
          (with_operations (fun _ => Sample.countOrders)
                           (Sample.state_of Sample.emptySwagger None))
        = (Normal [AddResourcesStep None], st')
        /\ cached_chain (operations st' 0) = Some [AddResourcesStep None]).
Proof.
  split.
  - exact (resolveAuthChain_without_registry (JObj []) 0
             (Sample.state_of Sample.emptySwagger None) (JObj Sample.writeScope)
             eq_refl eq_refl eq_refl).
  - exact (resolveAuthChain_without_registry (JObj []) 0
             (with_operations (fun _ => Sample.countOrders)
                              (Sample.state_of Sample.emptySwagger None))
             (JObj Sample.indexedScope) eq_refl eq_refl eq_refl).
Defined.
